(** * Visa issuance job ([src/jobs/visualisation.py]): a shallow embedding

    The job is a linear batch script: load a CSV, rename its columns,
    drop its empty rows, project three columns, correct country names
    with a fuzzy matcher, map countries to continents, register the
    result as a global temporary view and run three grouped-sum SQL
    queries over it.

    Modelling conventions.
    - Python [str] values are [string]s (byte strings; the four
      characters the job rewrites are ASCII, and no byte of a multi-byte
      UTF-8 sequence is ASCII, so rewriting bytes and rewriting code
      points agree).
    - Python and engine exceptions are the [Raise] branch of [result].
    - SQL NULL is [None]; SQL predicates are three-valued ([option bool],
      [None] being UNKNOWN).
    - A cell of a loaded table is an integer, a double (an IEEE binary64
      value, NaN and the infinities included) or a string. The issued
      count is a number: an integer of a bigint column or a double.
    - What the engine leaves open is a parameter ([Engine]): whether
      integer overflow raises or wraps, the order in which an
      aggregation without ORDER BY returns its groups, and the order of
      rows that tie in an ORDER BY. Every property is proved for every
      engine that keeps the laws of [Lawful].
    - The external libraries (pycountry, fuzzywuzzy, pycountry_convert)
      are interfaces: the country list, the scorer and the three lookup
      tables are parameters of the definitions that call them. *)

From Stdlib Require Import ZArith List Ascii String Bool Lia Permutation Sorted SpecFloat.
From stdpp Require Import base option list sorting strings gmap.

Local Open Scope string_scope.
Local Open Scope list_scope.
Local Open Scope Z_scope.

(** ** Python exceptions *)

Inductive exn : Type :=
| TypeError
| KeyError
| IllegalArgumentException
| AnalysisException
| ArithmeticException.

Inductive result (A : Type) : Type :=
| Ok (v : A)
| Raise (e : exn).

Arguments Ok {A} v.
Arguments Raise {A} e.

#[global] Instance exn_eq_dec : EqDecision exn.
Proof. solve_decision. Defined.

#[global] Instance result_eq_dec {A} `{EqDecision A} : EqDecision (result A).
Proof. solve_decision. Defined.

Definition bind {A B} (m : result A) (k : A -> result B) : result B :=
  match m with
  | Ok v => k v
  | Raise e => Raise e
  end.

Notation "'let*' x ':=' m 'in' k" := (bind m (fun x => k))
  (at level 10, x name, m at level 100, k at level 200).

(** [try: body except: handler]: a bare [except] catches everything. *)
Definition try_except {A} (body : result A) (handler : exn -> result A) : result A :=
  match body with
  | Ok v => Ok v
  | Raise e => handler e
  end.

(** A function that may raise, applied to every element in turn; the
    first element on which it raises fails the whole. *)
Fixpoint map_rows {A B} (f : A -> result B) (l : list A) : result (list B) :=
  match l with
  | [] => Ok []
  | x :: l' =>
      let* y := f x in
      let* ys := map_rows f l' in
      Ok (y :: ys)
  end.

(** ** Python strings *)

Module PyStr.

(** Characters of [s] as one-character strings mapped through [f] and
    joined. *)
Fixpoint concat_map (f : ascii -> string) (s : string) : string :=
  match s with
  | EmptyString => EmptyString
  | String c s' => f c +:+ concat_map f s'
  end.

(** [s.startswith(p)]. *)
Fixpoint starts_with (p s : string) : bool :=
  match p with
  | EmptyString => true
  | String a p' =>
      match s with
      | EmptyString => false
      | String b s' => (Ascii.eqb a b && starts_with p' s')%bool
      end
  end.

(** [go old new s skip]: left-to-right scan of [s]; [skip] counts the
    characters still covered by the occurrence of [old] matched last. *)
Fixpoint replace_go (old new s : string) (skip : nat) : string :=
  match s with
  | EmptyString => EmptyString
  | String c s' =>
      match skip with
      | S k => replace_go old new s' k
      | O =>
          if starts_with old s
          then new +:+ replace_go old new s' (Nat.pred (String.length old))
          else String c (replace_go old new s' O)
      end
  end.

(** [s.replace(old, new)]: every non-overlapping occurrence of [old],
    found left to right, becomes [new]; an empty [old] matches before
    every character and at the end. *)
Definition replace (s old new : string) : string :=
  match old with
  | EmptyString => concat_map (fun c => new +:+ String c EmptyString) s +:+ new
  | _ => replace_go old new s O
  end.

(** ASCII lower-casing, used for case-insensitive column resolution. *)
Definition lower_ascii (c : ascii) : ascii :=
  let n := nat_of_ascii c in
  if (Nat.leb 65 n && Nat.leb n 90)%bool then ascii_of_nat (n + 32) else c.

Fixpoint lower (s : string) : string :=
  match s with
  | EmptyString => EmptyString
  | String c s' => String (lower_ascii c) (lower s')
  end.

End PyStr.

(** ** Data frames *)

Inductive value : Type :=
| VInt (n : Z)
| VDouble (x : spec_float)
| VStr (s : string).

(** A cell is a value or NULL. *)
Definition cell : Type := option value.

Record DataFrame : Type := mkDataFrame {
  columns : list string;
  rows : list (list cell)
}.


(** *** Column renaming (lines 30-37) *)

Definition new_column_name (col_name : string) : string :=
  PyStr.replace
    (PyStr.replace
       (PyStr.replace
          (PyStr.replace col_name " " "_")
          "/" "")
       "." "")
    "," "".

Definition new_column_names (cols : list string) : list string :=
  List.map new_column_name cols.

(** [df.toDF] applied to the new names: the engine refuses a list of names whose length
    is not the number of columns. *)
Definition toDF (df : DataFrame) (names : list string) : result DataFrame :=
  if Nat.eqb (List.length names) (List.length (columns df))
  then Ok {| columns := names; rows := rows df |}
  else Raise IllegalArgumentException.

(** *** Dropping empty rows and projecting (lines 46-48) *)

(** What [dropna] counts as missing: NULL, and NaN in a double column. *)
Definition is_missing (c : cell) : bool :=
  match c with
  | None => true
  | Some (VDouble S754_nan) => true
  | Some _ => false
  end.

Module Attr.

Definition backtick : ascii := "`"%char.

(** The engine reads a column name given as a string as an attribute
    name: a part between backticks is taken as it is (a doubled backtick
    standing for one), a backtick anywhere else is a syntax error, and a
    dot outside backticks starts the name of a field of a struct column,
    which a table loaded from CSV has none of. [tmp] is the name read so
    far. *)
Fixpoint parse_go (s : string) (inBacktick : bool) (tmp : string) : result string :=
  match s with
  | EmptyString => if inBacktick then Raise AnalysisException else Ok tmp
  | String c rest =>
      if inBacktick then
        if Ascii.eqb c backtick then
          match rest with
          | EmptyString => Ok tmp
          | String d rest' =>
              if Ascii.eqb d backtick
              then parse_go rest' true (tmp +:+ String backtick EmptyString)
              else Raise AnalysisException
          end
        else parse_go rest true (tmp +:+ String c EmptyString)
      else
        if Ascii.eqb c backtick then
          match tmp with
          | EmptyString => parse_go rest true tmp
          | String _ _ => Raise AnalysisException
          end
        else if Ascii.eqb c "." then Raise AnalysisException
        else parse_go rest false (tmp +:+ String c EmptyString)
  end.

Definition parseAttributeName (name : string) : result string :=
  parse_go name false EmptyString.

End Attr.

(** Positions of the columns whose name matches [name]; the engine
    resolves names case-insensitively. *)
Fixpoint positions_from (i : nat) (name : string) (cols : list string) : list nat :=
  match cols with
  | [] => []
  | c :: cols' =>
      if String.eqb (PyStr.lower c) (PyStr.lower name)
      then i :: positions_from (S i) name cols'
      else positions_from (S i) name cols'
  end.

(** A name resolves when exactly one column matches it; no match and an
    ambiguous match are both analysis errors. *)
Definition resolve (cols : list string) (name : string) : result nat :=
  match positions_from O name cols with
  | [i] => Ok i
  | _ => Raise AnalysisException
  end.

(** A column given by a string: read as an attribute name, then
    resolved. *)
Definition resolve_quoted (cols : list string) (name : string) : result nat :=
  let* n := Attr.parseAttributeName name in
  resolve cols n.

Definition at_least_one_non_null (attrs : list nat) (r : list cell) : bool :=
  List.existsb (fun i => negb (is_missing (List.nth i r None))) attrs.

(** [df.dropna(how='all')]: every column of the table is resolved by
    its name, which fails on a name that does not read as an attribute
    name and on a name that matches two columns; a row is kept when at
    least one of the resolved columns holds a value other than NULL and
    NaN. *)
Definition dropna_all (df : DataFrame) : result DataFrame :=
  let* attrs := map_rows (resolve_quoted (columns df)) (columns df) in
  Ok {| columns := columns df;
        rows := List.filter (at_least_one_non_null attrs) (rows df) |}.

Definition project (idxs : list nat) (r : list cell) : list cell :=
  List.map (fun i => List.nth i r None) idxs.

(** [df.select] of a list of names: the output columns carry the names
    as they were asked for. *)
Definition select (df : DataFrame) (names : list string) : result DataFrame :=
  let* asked := map_rows Attr.parseAttributeName names in
  let* idxs := map_rows (resolve (columns df)) asked in
  Ok {| columns := asked; rows := List.map (project idxs) (rows df) |}.

Definition wanted_columns : list string :=
  ["year"; "country"; "number_of_issued_numerical"].

(** The cleaning stage of the script, lines 30-48. *)
Definition cleaner (df : DataFrame) : result DataFrame :=
  let* df1 := toDF df (new_column_names (columns df)) in
  let* df2 := dropna_all df1 in
  select df2 wanted_columns.


(** C1 as the specification words it: the four characters are deleted. *)
Definition is_stripped_char (c : ascii) : bool :=
  (Ascii.eqb c " " || Ascii.eqb c "/" || Ascii.eqb c "." || Ascii.eqb c ",")%bool.

Fixpoint delete_chars (s : string) : string :=
  match s with
  | EmptyString => EmptyString
  | String c s' =>
      if is_stripped_char c then delete_chars s' else String c (delete_chars s')
  end.

(** What the chain of four [replace] calls does to one character. *)
Definition rewrite_char (c : ascii) : string :=
  if Ascii.eqb c " " then "_"
  else if (Ascii.eqb c "/" || Ascii.eqb c "." || Ascii.eqb c ",")%bool then ""
  else String c EmptyString.

(** ** Country Corrector (lines 59-62) *)

Section Corrector.

(** [[country.name for country in pycountry.countries]]. *)
Variable countries : list string.

(** The score fuzzywuzzy gives a query against a choice (default
    processor and default scorer together). *)
Variable scorer : string -> string -> Z.

(** [process.extractWithoutOrder]: every choice with its score, in the
    order of the choices, below-cutoff pairs left out. *)
Definition extractWithoutOrder (query : string) (choices : list string)
    (score_cutoff : Z) : list (string * Z) :=
  List.filter (fun p => score_cutoff <=? snd p)
    (List.map (fun c => (c, scorer query c)) choices).

(** Python's [max(iterable, key=...)]: the first of the maximal
    elements; the running best is replaced only by a strictly larger
    key. *)
Fixpoint max_by_score (best : string * Z) (l : list (string * Z)) : string * Z :=
  match l with
  | [] => best
  | x :: l' => max_by_score (if snd best <? snd x then x else best) l'
  end.

(** [process.extractOne] with its default cutoff 0: [None] when
    nothing is left to take the maximum of. *)
Definition extractOne (query : string) (choices : list string) : option (string * Z) :=
  match extractWithoutOrder query choices 0 with
  | [] => None
  | x :: l => Some (max_by_score x l)
  end.

(** Unpacking [None] into [corrected_name, score] is a [TypeError]. *)
Definition correct_country_name_at (name : string) (threshold : Z) : result string :=
  match extractOne name countries with
  | None => Raise TypeError
  | Some (corrected_name, score) =>
      Ok (if threshold <=? score then corrected_name else name)
  end.

(** The UDF calls the function with the default [threshold=85]. *)
Definition correct_country_name (name : string) : result string :=
  correct_country_name_at name 85.

End Corrector.

(** ** Continent Mapper (lines 73-79) *)

Section ContinentMapper.

(** The three lookups of pycountry_convert; each raises on a miss. *)
Variable country_name_to_country_alpha2 : string -> result string.
Variable country_alpha2_to_continent_code : string -> result string.
Variable convert_continent_code_to_continent_name : string -> result string.

(** The body of the [try] block. *)
Definition continent_lookup_chain (country_name : string) : result string :=
  let* country_code := country_name_to_country_alpha2 country_name in
  let* continent_code := country_alpha2_to_continent_code country_code in
  convert_continent_code_to_continent_name continent_code.

Definition get_continent_name (country_name : string) : result (option string) :=
  try_except
    (let* continent_name := continent_lookup_chain country_name in
     Ok (Some continent_name))
    (fun _ => Ok None).

End ContinentMapper.

(** ** The enriched table and the SQL layer *)

(** A numeric value of the issued-count column: an integer when the
    engine inferred an integer column, a double when it inferred a
    double column. *)
Inductive number : Type :=
| NInt (n : Z)
| NDouble (x : spec_float).

(** A row of the view [global_temp.japan_visa]. *)
Record VisaRecord : Type := mkVisaRecord {
  year : option Z;
  country : option string;
  number_of_issued_numerical : option number;
  continent : option string
}.

Module SQL.

(** Three-valued truth: [None] is UNKNOWN. *)
Definition tri : Type := option bool.

Definition eq_int (a b : option Z) : tri :=
  match a, b with
  | Some x, Some y => Some (x =? y)
  | _, _ => None
  end.

Definition eq_str (a b : option string) : tri :=
  match a, b with
  | Some x, Some y => Some (String.eqb x y)
  | _, _ => None
  end.

Definition not3 (a : tri) : tri := option_map negb a.

Definition or3 (a b : tri) : tri :=
  match a, b with
  | Some true, _ | _, Some true => Some true
  | Some false, Some false => Some false
  | _, _ => None
  end.

Definition and3 (a b : tri) : tri :=
  match a, b with
  | Some false, _ | _, Some false => Some false
  | Some true, Some true => Some true
  | _, _ => None
  end.

Definition is_not_null {A} (a : option A) : tri :=
  match a with
  | Some _ => Some true
  | None => Some false
  end.

(** [v IN (l1, ..., ln)] over non-null literals: the disjunction of
    the equalities. *)
Fixpoint in_list (v : option string) (l : list string) : tri :=
  match l with
  | [] => Some false
  | x :: l' => or3 (eq_str v (Some x)) (in_list v l')
  end.

Definition not_in (v : option string) (l : list string) : tri :=
  not3 (in_list v l).

(** WHERE keeps a row only when its predicate is TRUE. *)
Definition holds (p : tri) : bool :=
  match p with
  | Some true => true
  | _ => false
  end.


(** *** SUM *)

(** The range of a bigint. *)
Definition min_long : Z := - 2 ^ 63.
Definition max_long : Z := 2 ^ 63 - 1.

Definition fits_long (z : Z) : bool := ((min_long <=? z) && (z <=? max_long))%bool.

Definition wrap_long (z : Z) : Z := (z - min_long) mod 2 ^ 64 + min_long.

(** Addition of two bigints: a result outside the range raises when the
    engine runs in ANSI mode and wraps around otherwise. *)
Definition add_long (ansi : bool) (a b : Z) : result Z :=
  if fits_long (a + b) then Ok (a + b)
  else if ansi then Raise ArithmeticException
  else Ok (wrap_long (a + b)).

(** Addition of two doubles: IEEE binary64, round to nearest even. *)
Definition add_double (a b : spec_float) : spec_float := SFadd 53 1024 a b.

Definition double_of_Z (n : Z) : spec_float := binary_normalize 53 1024 n 0 false.

Definition to_double (x : number) : spec_float :=
  match x with
  | NInt n => double_of_Z n
  | NDouble d => d
  end.

Definition is_double (x : option number) : bool :=
  match x with
  | Some (NDouble _) => true
  | _ => false
  end.

(** The SUM aggregate of an integer column: the buffer starts NULL, a
    NULL input leaves it as it is, a value is added to it (to 0 when it
    is still NULL), in the order of the rows. *)
Definition sum_long_step (ansi : bool) (acc : option Z) (x : option number)
    : result (option Z) :=
  match x with
  | Some (NInt v) =>
      let* s := add_long ansi (match acc with Some a => a | None => 0 end) v in
      Ok (Some s)
  | _ => Ok acc
  end.

Fixpoint sum_long (ansi : bool) (acc : option Z) (l : list (option number))
    : result (option Z) :=
  match l with
  | [] => Ok acc
  | x :: l' =>
      let* acc' := sum_long_step ansi acc x in
      sum_long ansi acc' l'
  end.

(** The SUM aggregate of a double column: the same buffer, with double
    addition, which never raises. *)
Definition sum_double_step (acc : option spec_float) (x : option number)
    : option spec_float :=
  match x with
  | Some v =>
      Some (add_double (match acc with Some a => a | None => S754_zero false end)
              (to_double v))
  | None => acc
  end.

Definition sum_double (l : list (option number)) : option spec_float :=
  List.fold_left sum_double_step l None.

(** SUM over the values of one group: a bigint for an integer column, a
    double for a double column. *)
Definition sum (ansi : bool) (l : list (option number)) : result (option number) :=
  if List.existsb is_double l
  then Ok (option_map NDouble (sum_double l))
  else
    let* s := sum_long ansi None l in
    Ok (option_map NInt s).

(** *** GROUP BY *)

(** Keys in order of first occurrence. *)
Definition distinct {K} `{EqDecision K} (l : list K) : list K :=
  reverse (remove_dups (reverse l)).

(** GROUP BY: one group per distinct key (NULL is a key like any
    other), holding the rows with that key in input order. *)
Definition group_by {R K} `{EqDecision K} (key : R -> K) (rs : list R)
    : list (K * list R) :=
  List.map (fun k => (k, List.filter (fun r => bool_decide (key r = k)) rs))
    (distinct (List.map key rs)).


(** *** ORDER BY *)

(** The place of a double in the order of doubles: numeric order, the
    two zeros together, NaN above everything. A finite double is
    [m * 2^e] with [e >= -1074]. *)
Definition double_key (x : spec_float) : Z :=
  match x with
  | S754_zero _ => 0
  | S754_finite s m e =>
      let v := Z.shiftl (Z.pos m) (e + 1074) in
      if s then - v else v
  | S754_infinity s => if s then - 2 ^ 2100 else 2 ^ 2100
  | S754_nan => 2 ^ 2101
  end.

Definition number_key (x : number) : Z :=
  match x with
  | NInt n => n * 2 ^ 1074
  | NDouble d => double_key d
  end.

(** ORDER BY ... DESC: larger first, NULLs last. *)
Definition desc_leb (a b : option number) : bool :=
  match a, b with
  | _, None => true
  | None, Some _ => false
  | Some x, Some y => number_key y <=? number_key x
  end.

(** ORDER BY ... (ascending): NULLs first, smaller first. *)
Definition asc_leb (a b : option Z) : bool :=
  match a, b with
  | None, _ => true
  | Some _, None => false
  | Some x, Some y => x <=? y
  end.

(** A sort that keeps the input order of equal elements: [x] goes
    before the first element it is not after. *)
Fixpoint insert {A} (leb : A -> A -> bool) (x : A) (l : list A) : list A :=
  match l with
  | [] => [x]
  | y :: l' => if leb x y then x :: l else y :: insert leb x l'
  end.

Fixpoint sort {A} (leb : A -> A -> bool) (l : list A) : list A :=
  match l with
  | [] => []
  | x :: l' => insert leb x (sort leb l')
  end.

Definition limit {A} (n : nat) (l : list A) : list A := List.firstn n l.

End SQL.

(** Rows of the three result tables. *)
Record ContRow : Type := mkContRow {
  cont_year : option Z;
  cont_continent : option string;
  cont_visa_issued : option number
}.

Record CountryRow : Type := mkCountryRow {
  ctry_country : option string;
  ctry_visa_issued : option number
}.

Record GeoRow : Type := mkGeoRow {
  geo_year : option Z;
  geo_country : option string;
  geo_visa_issued : option number
}.

Definition by_visa_issued_desc (a b : CountryRow) : Prop :=
  SQL.desc_leb (ctry_visa_issued a) (ctry_visa_issued b) = true.

Definition by_year_asc (a b : GeoRow) : Prop :=
  SQL.asc_leb (geo_year a) (geo_year b) = true.

Definition by_count_desc {K} (a b : K * Z) : Prop := (snd b <=? snd a) = true.

(** ** The engine *)

(** What the engine decides and the script does not: whether bigint
    overflow raises (ANSI mode) or wraps, the order in which an
    aggregation without ORDER BY returns its groups, and how an ORDER BY
    places the rows that tie. *)
Record Engine : Type := mkEngine {
  ansi_enabled : bool;
  arrange_cont : list ContRow -> list ContRow;
  order_countries : list CountryRow -> list CountryRow;
  order_geo : list GeoRow -> list GeoRow;
  order_counts : list (option string * Z) -> list (option string * Z)
}.

(** What every engine keeps: no row is lost or made up, and an ORDER BY
    returns its rows in order. *)
Record Lawful (E : Engine) : Prop := mkLawful {
  arrange_cont_perm : forall l, Permutation (arrange_cont E l) l;
  order_countries_perm : forall l, Permutation (order_countries E l) l;
  order_countries_sorted :
    forall l, StronglySorted by_visa_issued_desc (order_countries E l);
  order_geo_perm : forall l, Permutation (order_geo E l) l;
  order_geo_sorted : forall l, StronglySorted by_year_asc (order_geo E l);
  order_counts_perm : forall l, Permutation (order_counts E l) l;
  order_counts_sorted : forall l, StronglySorted by_count_desc (order_counts E l)
}.

(** An engine to run the queries on: ANSI mode, groups in order of first
    occurrence, ties in input order. *)
Definition reference_engine : Engine :=
  {| ansi_enabled := true;
     arrange_cont := fun l => l;
     order_countries :=
       SQL.sort (fun a b => SQL.desc_leb (ctry_visa_issued a) (ctry_visa_issued b));
     order_geo := SQL.sort (fun a b => SQL.asc_leb (geo_year a) (geo_year b));
     order_counts := SQL.sort (fun a b => snd b <=? snd a) |}.

(** The same engine without ANSI mode. *)
Definition legacy_engine : Engine :=
  {| ansi_enabled := false;
     arrange_cont := arrange_cont reference_engine;
     order_countries := order_countries reference_engine;
     order_geo := order_geo reference_engine;
     order_counts := order_counts reference_engine |}.

(** An engine that returns its groups, and the rows that tie, the other
    way round. *)
Definition reversing_engine : Engine :=
  {| ansi_enabled := true;
     arrange_cont := fun l => List.rev l;
     order_countries := fun l => order_countries reference_engine (List.rev l);
     order_geo := fun l => order_geo reference_engine (List.rev l);
     order_counts := fun l => order_counts reference_engine (List.rev l) |}.

Definition issued_of (g : list VisaRecord) : list (option number) :=
  List.map number_of_issued_numerical g.

(** *** Q1, [df_cont] (lines 103-108) *)

Definition where_cont (r : VisaRecord) : SQL.tri :=
  SQL.is_not_null (continent r).

Definition cont_groups (E : Engine) (t : list VisaRecord) : result (list ContRow) :=
  map_rows
    (fun g =>
       let* s := SQL.sum (ansi_enabled E) (issued_of (snd g)) in
       Ok {| cont_year := fst (fst g);
             cont_continent := snd (fst g);
             cont_visa_issued := s |})
    (SQL.group_by (fun r => (year r, continent r))
       (List.filter (fun r => SQL.holds (where_cont r)) t)).

Definition df_cont (E : Engine) (t : list VisaRecord) : result (list ContRow) :=
  let* groups := cont_groups E t in
  Ok (arrange_cont E groups).

(** *** Q2, [df_country] (lines 125-133) *)

Definition sentinels : list string := ["total"; "others"].

Definition where_country (r : VisaRecord) : SQL.tri :=
  SQL.and3 (SQL.not_in (country r) sentinels)
           (SQL.eq_int (year r) (Some 2017)).

Definition country_groups (E : Engine) (t : list VisaRecord)
    : result (list CountryRow) :=
  map_rows
    (fun g =>
       let* s := SQL.sum (ansi_enabled E) (issued_of (snd g)) in
       Ok {| ctry_country := fst g; ctry_visa_issued := s |})
    (SQL.group_by country
       (List.filter (fun r => SQL.holds (where_country r)) t)).

Definition df_country (E : Engine) (t : list VisaRecord) : result (list CountryRow) :=
  let* groups := country_groups E t in
  Ok (SQL.limit 10 (order_countries E groups)).

(** *** Q3, [df_geo] (lines 149-155) *)

Definition where_geo (r : VisaRecord) : SQL.tri :=
  SQL.not_in (country r) sentinels.

Definition geo_groups (E : Engine) (t : list VisaRecord) : result (list GeoRow) :=
  map_rows
    (fun g =>
       let* s := SQL.sum (ansi_enabled E) (issued_of (snd g)) in
       Ok {| geo_year := fst (fst g);
             geo_country := snd (fst g);
             geo_visa_issued := s |})
    (SQL.group_by (fun r => (year r, country r))
       (List.filter (fun r => SQL.holds (where_geo r)) t)).

Definition df_geo (E : Engine) (t : list VisaRecord) : result (list GeoRow) :=
  let* groups := geo_groups E t in
  Ok (order_geo E groups).

(** ** The session and its global temporary views (lines 100-155) *)

Record SparkSession : Type := mkSession {
  global_temp : gmap string (list VisaRecord)
}.

(** Session-threading computations that may raise. *)
Definition Spark (A : Type) : Type := SparkSession -> result (A * SparkSession).

Definition ret {A} (v : A) : Spark A := fun s => Ok (v, s).

Definition seq {A B} (m : Spark A) (k : A -> Spark B) : Spark B :=
  fun s => let* p := m s in k (fst p) (snd p).

Definition lift {A} (m : result A) : Spark A :=
  fun s => let* v := m in Ok (v, s).

Definition createOrReplaceGlobalTempView (name : string) (df : list VisaRecord)
    : Spark unit :=
  fun s => Ok (tt, {| global_temp := <[name := df]> (global_temp s) |}).

(** Reading a view that was never registered is an analysis error. *)
Definition read_view (name : string) : Spark (list VisaRecord) :=
  fun s =>
    match global_temp s !! name with
    | Some t => Ok (t, s)
    | None => Raise AnalysisException
    end.

Inductive Query : Type := Q1 | Q2 | Q3.

Inductive ResultTable : Type :=
| ContTable (rs : list ContRow)
| CountryTable (rs : list CountryRow)
| GeoTable (rs : list GeoRow).

Definition run_on (E : Engine) (q : Query) (t : list VisaRecord) : result ResultTable :=
  match q with
  | Q1 => let* rs := df_cont E t in Ok (ContTable rs)
  | Q2 => let* rs := df_country E t in Ok (CountryTable rs)
  | Q3 => let* rs := df_geo E t in Ok (GeoTable rs)
  end.

(** [spark.sql] of one of the three queries, all of which read
    [global_temp.japan_visa]; the result is computed when the script
    shows it, on the next line. *)
Definition spark_sql (E : Engine) (q : Query) : Spark ResultTable :=
  seq (read_view "japan_visa") (fun t => lift (run_on E q t)).

(** Lines 100-155: register the view, then run the three queries. *)
Definition aggregations (E : Engine) (df : list VisaRecord)
    : Spark (ResultTable * ResultTable * ResultTable) :=
  seq (createOrReplaceGlobalTempView "japan_visa" df) (fun _ =>
  seq (spark_sql E Q1) (fun r1 =>
  seq (spark_sql E Q2) (fun r2 =>
  seq (spark_sql E Q3) (fun r3 =>
  ret (r1, r2, r3))))).

(** ** The enrichment (lines 59-82) and the printed counts (lines 68, 85) *)

(** A row of the cleaned table, with the schema the engine inferred for
    its three columns: year (integer), country (string), issued count
    (integer or double). *)
Record CleanRecord : Type := mkCleanRecord {
  clean_year : option Z;
  clean_country : option string;
  clean_issued : option number
}.

(** [df.withColumn('country', f(df['country']))] (line 65): the country
    cell is replaced by what the UDF returns for it. *)
Definition withColumn_country (f : option string -> result (option string))
    (t : list CleanRecord) : result (list CleanRecord) :=
  map_rows
    (fun r =>
       let* c := f (clean_country r) in
       Ok {| clean_year := clean_year r;
             clean_country := c;
             clean_issued := clean_issued r |})
    t.

(** [df.withColumn('continent', f(df['country']))] (line 82): a fourth
    column is added. *)
Definition withColumn_continent (f : option string -> result (option string))
    (t : list CleanRecord) : result (list VisaRecord) :=
  map_rows
    (fun r =>
       let* k := f (clean_country r) in
       Ok {| year := clean_year r;
             country := clean_country r;
             number_of_issued_numerical := clean_issued r;
             continent := k |})
    t.

Section Enrichment.

Variable countries : list string.
Variable scorer : string -> string -> Z.

(** What [process.extractOne(None, countries)] does is decided inside
    fuzzywuzzy: it is a parameter. *)
Variable extractOne_of_None : result (option (string * Z)).

Variable country_name_to_country_alpha2 : string -> result string.
Variable country_alpha2_to_continent_code : string -> result string.
Variable convert_continent_code_to_continent_name : string -> result string.

(** What [pcc.country_name_to_country_alpha2(None)] does: a parameter. *)
Variable alpha2_of_None : result string.

(** The corrector as the UDF calls it: a NULL cell reaches the function
    as [None], with no guard in front of [extractOne]. *)
Definition correct_country_name_udf (name : option string) : result (option string) :=
  match name with
  | Some n =>
      let* out := correct_country_name countries scorer n in Ok (Some out)
  | None =>
      let* found := extractOne_of_None in
      match found with
      | None => Raise TypeError
      | Some (corrected_name, score) =>
          Ok (if 85 <=? score then Some corrected_name else None)
      end
  end.

(** The mapper as the UDF calls it: whatever the first lookup does with
    [None] happens inside the [try]. *)
Definition continent_udf (country_name : option string) : result (option string) :=
  match country_name with
  | Some n =>
      get_continent_name country_name_to_country_alpha2
        country_alpha2_to_continent_code
        convert_continent_code_to_continent_name n
  | None =>
      try_except
        (let* country_code := alpha2_of_None in
         let* continent_code := country_alpha2_to_continent_code country_code in
         let* continent_name := convert_continent_code_to_continent_name continent_code in
         Ok (Some continent_name))
        (fun _ => Ok None)
  end.

(** Lines 64-82: correct the countries, then map them to continents. *)
Definition enrich (t : list CleanRecord) : result (list VisaRecord) :=
  let* corrected := withColumn_country correct_country_name_udf t in
  withColumn_continent continent_udf corrected.

End Enrichment.


(** [df.groupBy(col).count()]: one row per distinct value of the column
    (NULL included), with the number of rows that carry it. *)
Definition groupBy_count {R K} `{EqDecision K} (key : R -> K) (rs : list R)
    : list (K * Z) :=
  List.map (fun g => (fst g, Z.of_nat (List.length (snd g))))
    (SQL.group_by key rs).

(** [df.show(n)] prints the first [n] rows; [n] is 20 when left out. *)
Definition show {A} (n : nat) (l : list A) : list A := List.firstn n l.

(** What line 68 prints: the counts per country, by descending count,
    the first 10 rows. *)
Definition country_counts (E : Engine) (t : list CleanRecord)
    : list (option string * Z) :=
  show 10 (order_counts E (groupBy_count clean_country t)).

(** What line 85 prints: the counts per continent, by descending count,
    the first 20 rows. *)
Definition continent_counts (E : Engine) (t : list VisaRecord)
    : list (option string * Z) :=
  show 20 (order_counts E (groupBy_count continent t)).

(** ** Vocabulary of the properties and sample data *)

(** *** Cleaning *)







(** A small loaded table: a row with no year, an all-empty row, a full
    row, a row that is empty on the three wanted columns only, and a row
    whose only value is a NaN. *)
Definition sample_loaded : DataFrame :=
  {| columns := ["Year"; "Country"; "Number of issued_numerical"; "Travel certificate"];
     rows := [ [None; Some (VStr "Japan"); Some (VInt 5); None];
               [None; None; None; None];
               [Some (VInt 2017); Some (VStr "France"); None; Some (VDouble (SQL.double_of_Z 1))];
               [None; None; None; Some (VDouble (SQL.double_of_Z 3))];
               [None; None; None; Some (VDouble S754_nan)] ] |}.

Definition sample_cleaned : DataFrame :=
  {| columns := ["year"; "country"; "number_of_issued_numerical"];
     rows := [ [None; Some (VStr "Japan"); Some (VInt 5)];
               [Some (VInt 2017); Some (VStr "France"); None];
               [None; None; None] ] |}.


(** Two loaded headers on which the renaming makes trouble: two names
    that become one, and a name with a backtick. *)
Definition colliding_loaded : DataFrame :=
  {| columns := ["year"; "country"; "number of issued_numerical"; "a.b"; "ab"];
     rows := [ [Some (VInt 2017); Some (VStr "Japan"); Some (VInt 5); None; None] ] |}.

Definition backtick_loaded : DataFrame :=
  {| columns := ["year"; "country"; "number of issued_numerical"; "a`b"];
     rows := [ [Some (VInt 2017); Some (VStr "Japan"); Some (VInt 5); None] ] |}.

(** *** Corrector and mapper *)

(** A reference list and a scorer to run the corrector on: 100 for the
    same name, 90 for a name that differs in letter case only, 0
    otherwise. *)
Definition sample_countries : list string := ["France"; "Japan"; "Viet Nam"].

Definition sample_scorer (query choice : string) : Z :=
  if String.eqb query choice then 100
  else if String.eqb (PyStr.lower query) (PyStr.lower choice) then 90
  else 0.

(** Three small lookup tables to run the mapper on. *)
Definition sample_alpha2 (country_name : string) : result string :=
  if String.eqb country_name "Japan" then Ok "JP"
  else if String.eqb country_name "France" then Ok "FR"
  else if String.eqb country_name "Antarctica" then Ok "AQ"
  else Raise KeyError.

Definition sample_continent_code (country_code : string) : result string :=
  if String.eqb country_code "JP" then Ok "AS"
  else if String.eqb country_code "FR" then Ok "EU"
  else Raise KeyError.

Definition sample_continent_name (continent_code : string) : result string :=
  if String.eqb continent_code "AS" then Ok "Asia"
  else if String.eqb continent_code "EU" then Ok "Europe"
  else Raise KeyError.

(** *** Sums *)

(** C7 as the specification words it: the sum of the non-null values
    (of an integer column). *)
Fixpoint sum_non_null (l : list (option number)) : Z :=
  match l with
  | [] => 0
  | Some (NInt v) :: l' => v + sum_non_null l'
  | _ :: l' => sum_non_null l'
  end.

Definition has_value (l : list (option number)) : bool :=
  List.existsb (fun x => match x with Some _ => true | None => false end) l.

(** The sum of a group as SQL has it: NULL when the group has no value,
    the sum of its values otherwise. *)
Definition exact_sum (l : list (option number)) : option number :=
  if has_value l then Some (NInt (sum_non_null l)) else None.

(** The values of an integer column. *)
Definition integer_values (l : list (option number)) : Prop :=
  forall x, In (Some x) l -> exists n, x = NInt n.

(** The absolute values of the integers of a column, added up. *)
Fixpoint abs_total (l : list (option number)) : Z :=
  match l with
  | [] => 0
  | Some (NInt v) :: l' => Z.abs v + abs_total l'
  | _ :: l' => abs_total l'
  end.

(** A view whose issued counts are integers that no order of adding up
    takes out of the bigint range. *)
Definition integer_counts (t : list VisaRecord) : Prop :=
  integer_values (issued_of t) /\ abs_total (issued_of t) <= SQL.max_long.

(** *** Queries *)

(** The shape the three queries share: GROUP BY a key, one row per group
    with its key and the SUM of its issued counts. *)
Definition grouped_sums {K Row} `{EqDecision K} (ansi : bool)
    (key : VisaRecord -> K) (mk : K -> option number -> Row)
    (rs : list VisaRecord) : result (list Row) :=
  map_rows
    (fun g => let* s := SQL.sum ansi (issued_of (snd g)) in Ok (mk (fst g) s))
    (SQL.group_by key rs).

(** The rows with a given key. *)
Definition part {K} `{EqDecision K} (key : VisaRecord -> K)
    (rs : list VisaRecord) (k : K) : list VisaRecord :=
  List.filter (fun r => bool_decide (key r = k)) rs.

(** The rows a group of each query is made of. *)
Definition cont_group (t : list VisaRecord) (y : option Z) (k : option string)
    : list VisaRecord :=
  List.filter (fun r => bool_decide ((year r, continent r) = (y, k)))
    (List.filter (fun r => SQL.holds (where_cont r)) t).

Definition country_group (t : list VisaRecord) (k : option string)
    : list VisaRecord :=
  List.filter (fun r => bool_decide (country r = k))
    (List.filter (fun r => SQL.holds (where_country r)) t).

Definition geo_group (t : list VisaRecord) (y : option Z) (k : option string)
    : list VisaRecord :=
  List.filter (fun r => bool_decide ((year r, country r) = (y, k)))
    (List.filter (fun r => SQL.holds (where_geo r)) t).

(** The rows of year 2017 of one country. *)
Definition rows_of_country_2017 (c : string) (t : list VisaRecord)
    : list VisaRecord :=
  List.filter
    (fun r => (bool_decide (year r = Some 2017) && bool_decide (country r = Some c))%bool)
    t.

(** The table of the Q2 scenario. *)
Definition scenario_q2 : list VisaRecord :=
  [ {| year := Some 2017; country := Some "FR";
       number_of_issued_numerical := Some (NInt 100); continent := None |};
    {| year := Some 2017; country := Some "US";
       number_of_issued_numerical := Some (NInt 300); continent := None |};
    {| year := Some 2017; country := Some "total";
       number_of_issued_numerical := Some (NInt 400); continent := None |} ].

(** A table whose only row has no issued count. *)
Definition null_count_table : list VisaRecord :=
  [ {| year := Some 2017; country := Some "FR";
       number_of_issued_numerical := None; continent := Some "Europe" |} ].

Definition has_country (r : VisaRecord) : bool :=
  match country r with
  | Some _ => true
  | None => false
  end.

Definition with_country (f : VisaRecord -> option string) (r : VisaRecord)
    : VisaRecord :=
  {| year := year r;
     country := f r;
     number_of_issued_numerical := number_of_issued_numerical r;
     continent := continent r |}.

(** A row with a continent and no country. *)
Definition no_country_table : list VisaRecord :=
  [ {| year := Some 2017; country := None;
       number_of_issued_numerical := Some (NInt 5); continent := Some "Asia" |} ].



(** Two counts whose sum is not a bigint. *)
Definition overflow_table : list VisaRecord :=
  [ {| year := Some 2017; country := Some "FR";
       number_of_issued_numerical := Some (NInt (2 ^ 62)); continent := Some "Europe" |};
    {| year := Some 2017; country := Some "FR";
       number_of_issued_numerical := Some (NInt (2 ^ 62)); continent := Some "Europe" |} ].

(** *** The rest *)

Fixpoint contains_char (ch : ascii) (s : string) : bool :=
  match s with
  | EmptyString => false
  | String c s' => (Ascii.eqb c ch || contains_char ch s')%bool
  end.

(** The characters the renaming deletes outright. *)
Definition is_deleted_char (c : ascii) : bool :=
  (Ascii.eqb c "/" || Ascii.eqb c "." || Ascii.eqb c ",")%bool.

Fixpoint count_deleted (s : string) : nat :=
  match s with
  | EmptyString => O
  | String c s' => ((if is_deleted_char c then 1 else 0) + count_deleted s')%nat
  end.

Definition sumZ (l : list Z) : Z := List.fold_right Z.add 0 l.

Definition value_or_zero (v : option number) : Z :=
  match v with
  | Some (NInt x) => x
  | _ => 0
  end.

Definition rows_of_year_continent (y : option Z) (k : string)
    (t : list VisaRecord) : list VisaRecord :=
  List.filter
    (fun r => (bool_decide (year r = y) && bool_decide (continent r = Some k))%bool)
    t.

Definition rows_of_year_country (y : option Z) (c : string)
    (t : list VisaRecord) : list VisaRecord :=
  List.filter
    (fun r => (bool_decide (year r = y) && bool_decide (country r = Some c))%bool)
    t.

(** The cleaned rows of one year whose country the corrector turns into
    [c]. *)
Definition rows_corrected_to (correct : option string -> result (option string))
    (y : option Z) (c : string) (t : list CleanRecord) : list CleanRecord :=
  List.filter
    (fun r => (bool_decide (clean_year r = y)
               && bool_decide (correct (clean_country r) = Ok (Some c)))%bool)
    t.

(** What the enrichment promises about a row and the row it becomes. *)
Definition enriched_from (correct continent_of : option string -> result (option string))
    (r : CleanRecord) (r' : VisaRecord) : Prop :=
  year r' = clean_year r
  /\ number_of_issued_numerical r' = clean_issued r
  /\ correct (clean_country r) = Ok (country r')
  /\ continent_of (country r') = Ok (continent r').

Definition sample_clean_table : list CleanRecord :=
  [ {| clean_year := Some 2017; clean_country := Some "japan"; clean_issued := Some (NInt 7) |};
    {| clean_year := Some 2017; clean_country := Some "total"; clean_issued := Some (NInt 9) |};
    {| clean_year := None; clean_country := Some "France"; clean_issued := None |} ].

(** Two spellings of one country and a sentinel. *)
Definition sample_spellings : list CleanRecord :=
  [ {| clean_year := Some 2017; clean_country := Some "japan"; clean_issued := Some (NInt 7) |};
    {| clean_year := Some 2017; clean_country := Some "Japan"; clean_issued := Some (NInt 5) |};
    {| clean_year := Some 2017; clean_country := Some "total"; clean_issued := Some (NInt 12) |} ].

Definition sample_spellings_enriched : list VisaRecord :=
  [ {| year := Some 2017; country := Some "Japan";
       number_of_issued_numerical := Some (NInt 7); continent := Some "Asia" |};
    {| year := Some 2017; country := Some "Japan";
       number_of_issued_numerical := Some (NInt 5); continent := Some "Asia" |};
    {| year := Some 2017; country := Some "total";
       number_of_issued_numerical := Some (NInt 12); continent := None |} ].

Definition sample_table_a : list VisaRecord :=
  [ {| year := Some 2016; country := Some "FR";
       number_of_issued_numerical := Some (NInt 1); continent := Some "Europe" |};
    {| year := Some 2017; country := Some "JP";
       number_of_issued_numerical := None; continent := Some "Asia" |};
    {| year := Some 2016; country := Some "FR";
       number_of_issued_numerical := Some (NInt 4); continent := Some "Europe" |} ].

Definition sample_table_b : list VisaRecord :=
  [ {| year := Some 2017; country := Some "JP";
       number_of_issued_numerical := None; continent := Some "Asia" |};
    {| year := Some 2016; country := Some "FR";
       number_of_issued_numerical := Some (NInt 1); continent := Some "Europe" |};
    {| year := Some 2016; country := Some "FR";
       number_of_issued_numerical := Some (NInt 4); continent := Some "Europe" |} ].

(** Settles [integer_counts] on a table that is written out. *)
Ltac integer_counts_by_computation :=
  split;
  [ let x := fresh "x" in
    let Hx := fresh "Hx" in
    intros x Hx; cbn in Hx;
    repeat (destruct Hx as [Hx|Hx]; [try discriminate Hx; inversion Hx; eauto|]);
    contradiction
  | apply Z.leb_le; reflexivity ].
(** * Properties *)

Example new_column_name_ex1 :
  new_column_name "Number of issued_numerical" = "Number_of_issued_numerical".
Proof. reflexivity. Qed.

Example new_column_name_ex2 :
  new_column_name "a/b.c, d" = "abc_d".
Proof. reflexivity. Qed.

(** ** Results of the error monad *)

Lemma bind_Ok_inv {A B} (m : result A) (k : A -> result B) (b : B) :
  bind m k = Ok b -> exists a, m = Ok a /\ k a = Ok b.
Proof. destruct m as [a|e]; simpl; intros H; [eauto | discriminate]. Qed.

Lemma map_rows_Ok {A B} (f : A -> result B) l l' :
  map_rows f l = Ok l' <-> Forall2 (fun x y => f x = Ok y) l l'.
Proof.
  revert l'. induction l as [|x l IH]; intros l'; cbn [map_rows].
  - split.
    + intros H. inversion H. constructor.
    + intros H. inversion H. reflexivity.
  - split.
    + intros H. apply bind_Ok_inv in H as (y & Hy & H).
      apply bind_Ok_inv in H as (ys & Hys & H). inversion H; subst l'.
      constructor; [exact Hy | now apply IH].
    + intros H. inversion H as [|x0 y l0 ys Hy Hys]; subst.
      rewrite Hy. cbn [bind]. apply IH in Hys. rewrite Hys. reflexivity.
Qed.

Lemma map_rows_Raise {A B} (f : A -> result B) l e :
  map_rows f l = Raise e -> exists x, In x l /\ f x = Raise e.
Proof.
  induction l as [|x l IH]; cbn [map_rows]; [discriminate|].
  destruct (f x) as [y|e'] eqn:Hx; cbn [bind].
  - destruct (map_rows f l) as [ys|e''] eqn:Hl; cbn [bind]; [discriminate|].
    intros H. inversion H; subst e''.
    destruct (IH eq_refl) as (x' & Hin & Hx'). exists x'. split; [now right | exact Hx'].
  - intros H. inversion H; subst e'. exists x. split; [now left | exact Hx].
Qed.

Lemma map_rows_returns {A B} (f : A -> result B) l :
  (forall x, In x l -> exists y, f x = Ok y) -> exists l', map_rows f l = Ok l'.
Proof.
  induction l as [|x l IH]; intros H; cbn [map_rows]; [eauto|].
  destruct (H x (or_introl eq_refl)) as (y & ->). cbn [bind].
  destruct IH as (ys & ->); [intros x' Hx'; apply H; now right|].
  cbn [bind]. eauto.
Qed.

(** ** Column renaming *)

Lemma append_cons c (s1 s2 : string) :
  String c s1 +:+ s2 = String c (s1 +:+ s2).
Proof. reflexivity. Qed.

Lemma append_assoc (s1 s2 s3 : string) :
  (s1 +:+ s2) +:+ s3 = s1 +:+ (s2 +:+ s3).
Proof.
  induction s1 as [|c s1 IH]; [reflexivity|].
  rewrite !append_cons. now f_equal.
Qed.

Lemma concat_map_app f s1 s2 :
  PyStr.concat_map f (s1 +:+ s2) = PyStr.concat_map f s1 +:+ PyStr.concat_map f s2.
Proof.
  induction s1 as [|c s1 IH]; [reflexivity|].
  rewrite append_cons. cbn [PyStr.concat_map].
  rewrite IH. symmetry. apply append_assoc.
Qed.

Lemma concat_map_compose f g s :
  PyStr.concat_map f (PyStr.concat_map g s)
  = PyStr.concat_map (fun c => PyStr.concat_map f (g c)) s.
Proof.
  induction s as [|c s IH]; [reflexivity|].
  cbn [PyStr.concat_map]. now rewrite concat_map_app, IH.
Qed.

Lemma concat_map_ext f g s :
  (forall c, f c = g c) -> PyStr.concat_map f s = PyStr.concat_map g s.
Proof.
  intros E. induction s as [|c s IH]; [reflexivity|].
  cbn [PyStr.concat_map]. now rewrite E, IH.
Qed.

(** Replacing a one-character pattern rewrites the string character by
    character. *)
Lemma replace_char s a new :
  PyStr.replace s (String a EmptyString) new
  = PyStr.concat_map (fun c => if Ascii.eqb c a then new else String c EmptyString) s.
Proof.
  unfold PyStr.replace.
  induction s as [|c s IH]; [reflexivity|].
  cbn [PyStr.replace_go PyStr.concat_map PyStr.starts_with String.length Nat.pred].
  rewrite andb_true_r, (Ascii.eqb_sym a c).
  destruct (Ascii.eqb c a); now rewrite IH.
Qed.

Lemma new_column_name_chars col :
  new_column_name col = PyStr.concat_map rewrite_char col.
Proof.
  unfold new_column_name.
  rewrite !replace_char, !concat_map_compose.
  apply concat_map_ext. intros c.
  destruct c as [[] [] [] [] [] [] [] []]; reflexivity.
Qed.

Lemma new_column_names_length cols :
  List.length (new_column_names cols) = List.length cols.
Proof. apply List.length_map. Qed.

Lemma toDF_new_column_names df :
  toDF df (new_column_names (columns df))
  = Ok {| columns := new_column_names (columns df); rows := rows df |}.
Proof.
  unfold toDF. now rewrite new_column_names_length, Nat.eqb_refl.
Qed.

(** C1, as stated, fails: a space becomes an underscore, it is not
    deleted. *)
Lemma C1_space_becomes_underscore :
  new_column_names ["Number of issued_numerical"]
  = ["Number_of_issued_numerical"]
  /\ new_column_names ["Number of issued_numerical"]
     <> List.map delete_chars ["Number of issued_numerical"].
Proof. split; [reflexivity | discriminate]. Qed.

(** C1 (amended): the renaming always succeeds, leaves the rows as they
    are, and every new column name is the old one with each space
    replaced by an underscore and each slash, period and comma deleted. *)
Theorem C1_column_names_rewritten (df : DataFrame) :
  exists df',
    toDF df (new_column_names (columns df)) = Ok df'
    /\ rows df' = rows df
    /\ columns df' = List.map (PyStr.concat_map rewrite_char) (columns df)
    /\ List.length (columns df') = List.length (columns df).
Proof.
  eexists. split; [apply toDF_new_column_names|]. cbn [rows columns].
  split; [reflexivity|]. split.
  - unfold new_column_names. apply List.map_ext, new_column_name_chars.
  - apply new_column_names_length.
Qed.

(** ** Cleaning *)





















Example cleaner_sample : cleaner sample_loaded = Ok sample_cleaned.
Proof. reflexivity. Qed.

Example cleaner_colliding : cleaner colliding_loaded = Raise AnalysisException.
Proof. reflexivity. Qed.

Example cleaner_backtick : cleaner backtick_loaded = Raise AnalysisException.
Proof. reflexivity. Qed.










(** ** Country Corrector *)

Section CorrectorFacts.

Variable countries : list string.
Variable scorer : string -> string -> Z.

Lemma max_by_score_in best l :
  max_by_score best l = best \/ In (max_by_score best l) l.
Proof.
  revert best. induction l as [|x l IH]; intros best; cbn [max_by_score].
  - now left.
  - destruct (IH (if snd best <? snd x then x else best)) as [E|Hin].
    + rewrite E. destruct (snd best <? snd x); [right; now left | now left].
    + right. now right.
Qed.

Lemma max_by_score_ge_best best l : snd best <= snd (max_by_score best l).
Proof.
  revert best. induction l as [|x l IH]; intros best; cbn [max_by_score].
  - lia.
  - specialize (IH (if snd best <? snd x then x else best)).
    destruct (Z.ltb_spec (snd best) (snd x)); lia.
Qed.

Lemma max_by_score_ge best l x :
  In x l -> snd x <= snd (max_by_score best l).
Proof.
  revert best. induction l as [|y l IH]; intros best Hin; [contradiction|].
  cbn [max_by_score]. destruct Hin as [->|Hin].
  - pose proof (max_by_score_ge_best (if snd best <? snd x then x else best) l) as H.
    destruct (Z.ltb_spec (snd best) (snd x)); lia.
  - now apply IH.
Qed.

Lemma in_extractWithoutOrder query choices cutoff c s :
  In (c, s) (extractWithoutOrder scorer query choices cutoff)
  <-> In c choices /\ s = scorer query c /\ cutoff <= s.
Proof.
  unfold extractWithoutOrder. rewrite List.filter_In, List.in_map_iff.
  cbn [snd]. rewrite Z.leb_le. split.
  - intros [(c' & E & Hin) Hle]. inversion E; subst. auto.
  - intros (Hin & -> & Hle). split; [|exact Hle]. now exists c.
Qed.

Lemma extractOne_Some query choices c s :
  extractOne scorer query choices = Some (c, s) ->
  In c choices /\ s = scorer query c /\ 0 <= s
  /\ forall c', In c' choices -> scorer query c' <= s.
Proof.
  unfold extractOne.
  destruct (extractWithoutOrder scorer query choices 0) as [|x l] eqn:E;
    [discriminate|].
  intros H. inversion H as [Hmax]. clear H.
  assert (Hin : In (c, s) (extractWithoutOrder scorer query choices 0)).
  { rewrite E, <- Hmax.
    destruct (max_by_score_in x l) as [-> | Hl]; [now left | now right]. }
  apply in_extractWithoutOrder in Hin as (Hc & Hs & H0).
  repeat split; try assumption.
  intros c' Hc'.
  destruct (Z.le_gt_cases 0 (scorer query c')) as [Hge|Hlt]; [|lia].
  assert (Hin' : In (c', scorer query c') (x :: l)).
  { rewrite <- E. apply in_extractWithoutOrder. auto. }
  change s with (snd (c, s)). rewrite <- Hmax.
  change (scorer query c') with (snd (c', scorer query c')).
  destruct Hin' as [<- | Hl].
  - apply max_by_score_ge_best.
  - now apply max_by_score_ge.
Qed.

Lemma extractOne_None query choices :
  extractOne scorer query choices = None ->
  forall c, In c choices -> scorer query c < 0.
Proof.
  unfold extractOne.
  destruct (extractWithoutOrder scorer query choices 0) as [|x l] eqn:E;
    [|discriminate].
  intros _ c Hc.
  destruct (Z.le_gt_cases 0 (scorer query c)) as [Hge|Hlt]; [|lia].
  assert (Hin : In (c, scorer query c) (extractWithoutOrder scorer query choices 0))
    by (apply in_extractWithoutOrder; auto).
  rewrite E in Hin. contradiction.
Qed.

(** C4: with a non-empty reference list and scores in 0..100, the
    corrector returns a best-scoring canonical name when its score is
    at least 85 and the input otherwise; so a best score below 85
    passes the input through, and so does an input that is itself a
    canonical name, the only one scoring 100 against it. *)
Theorem C4_best_match_or_pass_through (name : string) :
  countries <> [] ->
  (forall c, In c countries -> 0 <= scorer name c <= 100) ->
  exists best,
    In best countries
    /\ (forall c, In c countries -> scorer name c <= scorer name best)
    /\ correct_country_name countries scorer name
       = Ok (if 85 <=? scorer name best then best else name)
    /\ (scorer name best < 85 ->
        correct_country_name countries scorer name = Ok name)
    /\ (In name countries ->
        scorer name name = 100 ->
        (forall c, In c countries -> scorer name c = 100 -> c = name) ->
        correct_country_name countries scorer name = Ok name).
Proof.
  intros Hne Hrange.
  unfold correct_country_name, correct_country_name_at.
  destruct (extractOne scorer name countries) as [[best s]|] eqn:E.
  - apply extractOne_Some in E as (Hin & -> & H0 & Hmax).
    exists best. repeat split; try assumption.
    + intros Hlt. destruct (Z.leb_spec 85 (scorer name best)); [lia | reflexivity].
    + intros Hname Hself Huniq.
      destruct (Z.leb_spec 85 (scorer name best)); [|reflexivity].
      f_equal. apply Huniq; [exact Hin|].
      pose proof (Hmax name Hname). pose proof (Hrange best Hin). lia.
  - destruct countries as [|c cs]; [congruence|].
    pose proof (extractOne_None _ _ E c (or_introl eq_refl)).
    pose proof (Hrange c (or_introl eq_refl)). lia.
Qed.

(** C10: whatever the input, the corrector's output is the input
    itself or a name of the reference list; it produces no output only
    when no reference name reaches the cutoff 0, and then it raises. *)
Theorem C10_output_is_input_or_canonical (name : string) :
  match correct_country_name countries scorer name with
  | Ok out => out = name \/ In out countries
  | Raise e => e = TypeError /\ forall c, In c countries -> scorer name c < 0
  end.
Proof.
  unfold correct_country_name, correct_country_name_at.
  destruct (extractOne scorer name countries) as [[best s]|] eqn:E.
  - apply extractOne_Some in E as (Hin & _).
    destruct (85 <=? s); [now right | now left].
  - split; [reflexivity|]. now apply extractOne_None.
Qed.

End CorrectorFacts.

Example correct_exact : correct_country_name sample_countries sample_scorer "Japan" = Ok "Japan".
Proof. reflexivity. Qed.

Example correct_close : correct_country_name sample_countries sample_scorer "japan" = Ok "Japan".
Proof. reflexivity. Qed.

Example correct_far : correct_country_name sample_countries sample_scorer "total" = Ok "total".
Proof. reflexivity. Qed.

Example correct_empty_list : correct_country_name [] sample_scorer "Japan" = Raise TypeError.
Proof. reflexivity. Qed.

Lemma sample_scorer_range query c : 0 <= sample_scorer query c <= 100.
Proof.
  unfold sample_scorer.
  destruct (String.eqb query c); [lia|].
  destruct (String.eqb (PyStr.lower query) (PyStr.lower c)); lia.
Qed.

Lemma C4_best_match_or_pass_through_witness :
  correct_country_name sample_countries sample_scorer "Japan" = Ok "Japan".
Proof.
  destruct (C4_best_match_or_pass_through sample_countries sample_scorer "Japan")
    as (best & _ & _ & _ & _ & Hcanon).
  - discriminate.
  - intros c _. apply sample_scorer_range.
  - apply Hcanon.
    + right; left; reflexivity.
    + reflexivity.
    + intros c Hc Hs. unfold sample_countries in Hc. cbn [In] in Hc.
      destruct Hc as [<-|[<-|[<-|[]]]]; try reflexivity; discriminate Hs.
Defined.

(** ** Continent Mapper *)

Section ContinentMapperFacts.

Variable country_name_to_country_alpha2 : string -> result string.
Variable country_alpha2_to_continent_code : string -> result string.
Variable convert_continent_code_to_continent_name : string -> result string.

Let chain := continent_lookup_chain country_name_to_country_alpha2
               country_alpha2_to_continent_code
               convert_continent_code_to_continent_name.
Let mapper := get_continent_name country_name_to_country_alpha2
                country_alpha2_to_continent_code
                convert_continent_code_to_continent_name.

(** The chain succeeds exactly when its three lookups succeed in turn. *)
Lemma continent_lookup_chain_Ok country_name continent_name :
  chain country_name = Ok continent_name <->
  exists country_code continent_code,
    country_name_to_country_alpha2 country_name = Ok country_code
    /\ country_alpha2_to_continent_code country_code = Ok continent_code
    /\ convert_continent_code_to_continent_name continent_code = Ok continent_name.
Proof.
  unfold chain, continent_lookup_chain. split.
  - intros H. apply bind_Ok_inv in H as (a2 & H1 & H).
    apply bind_Ok_inv in H as (cc & H2 & H3). eauto.
  - intros (a2 & cc & H1 & H2 & H3). rewrite H1. cbn [bind].
    rewrite H2. cbn [bind]. exact H3.
Qed.

Lemma get_continent_name_chain country_name :
  mapper country_name
  = Ok (match chain country_name with
        | Ok continent_name => Some continent_name
        | Raise _ => None
        end).
Proof.
  unfold mapper, chain, get_continent_name.
  destruct (continent_lookup_chain _ _ _ country_name); reflexivity.
Qed.

(** C5: the mapper never raises: it returns the continent name when
    the three lookups succeed in turn, and an absent value when the
    country is unknown, when its code has no continent, or when the
    continent code has no name. *)
Theorem C5_continent_or_absent (country_name : string) :
  exists r,
    mapper country_name = Ok r
    /\ (forall country_code continent_code continent_name,
          country_name_to_country_alpha2 country_name = Ok country_code ->
          country_alpha2_to_continent_code country_code = Ok continent_code ->
          convert_continent_code_to_continent_name continent_code = Ok continent_name ->
          r = Some continent_name)
    /\ (forall e,
          country_name_to_country_alpha2 country_name = Raise e -> r = None)
    /\ (forall country_code e,
          country_name_to_country_alpha2 country_name = Ok country_code ->
          country_alpha2_to_continent_code country_code = Raise e -> r = None)
    /\ (forall country_code continent_code e,
          country_name_to_country_alpha2 country_name = Ok country_code ->
          country_alpha2_to_continent_code country_code = Ok continent_code ->
          convert_continent_code_to_continent_name continent_code = Raise e ->
          r = None).
Proof.
  eexists. split; [apply get_continent_name_chain|].
  unfold chain, continent_lookup_chain.
  repeat split.
  - intros a2 cc cn H1 H2 H3. rewrite H1. cbn [bind]. rewrite H2. cbn [bind].
    now rewrite H3.
  - intros e H1. now rewrite H1.
  - intros a2 e H1 H2. rewrite H1. cbn [bind]. now rewrite H2.
  - intros a2 cc e H1 H2 H3. rewrite H1. cbn [bind]. rewrite H2. cbn [bind].
    now rewrite H3.
Qed.

End ContinentMapperFacts.

Example continent_known :
  get_continent_name sample_alpha2 sample_continent_code sample_continent_name "Japan"
  = Ok (Some "Asia").
Proof. reflexivity. Qed.

Example continent_unknown_country :
  get_continent_name sample_alpha2 sample_continent_code sample_continent_name "total"
  = Ok None.
Proof. reflexivity. Qed.

Example continent_unmapped_code :
  get_continent_name sample_alpha2 sample_continent_code sample_continent_name "Antarctica"
  = Ok None.
Proof. reflexivity. Qed.

(** ** The SQL layer *)

(** *** SUM *)

Lemma max_long_value : SQL.max_long = 9223372036854775807.
Proof. reflexivity. Qed.

Lemma min_long_value : SQL.min_long = -9223372036854775808.
Proof. reflexivity. Qed.

Lemma fits_long_abs z : Z.abs z <= SQL.max_long -> SQL.fits_long z = true.
Proof.
  unfold SQL.fits_long. rewrite max_long_value, min_long_value.
  intros H. apply andb_true_iff. rewrite !Z.leb_le. lia.
Qed.

Lemma add_long_exact ansi a b :
  Z.abs a + Z.abs b <= SQL.max_long -> SQL.add_long ansi a b = Ok (a + b).
Proof.
  intros H. unfold SQL.add_long. rewrite fits_long_abs; [reflexivity | lia].
Qed.

Lemma has_value_cons x l :
  has_value (x :: l)
  = (match x with Some _ => true | None => false end || has_value l)%bool.
Proof. reflexivity. Qed.

Lemma abs_total_nonneg l : 0 <= abs_total l.
Proof.
  induction l as [|[[v|d]|] l IH]; cbn [abs_total]; lia.
Qed.

Lemma integer_values_cons x l :
  integer_values (x :: l) ->
  (x = None \/ exists v, x = Some (NInt v)) /\ integer_values l.
Proof.
  intros H. split.
  - destruct x as [y|]; [right | now left].
    destruct (H y (or_introl eq_refl)) as (n & ->). eauto.
  - intros y Hy. apply H. now right.
Qed.

Lemma integer_values_no_double l :
  integer_values l -> List.existsb SQL.is_double l = false.
Proof.
  induction l as [|x l IH]; intros H; [reflexivity|].
  apply integer_values_cons in H as ([->|(v & ->)] & Hl); cbn [List.existsb SQL.is_double orb];
    now apply IH.
Qed.

(** Adding up an integer column in any mode: while the absolute values
    stay within the bigint range, the buffer holds the exact sum. *)
Lemma sum_long_exact ansi l acc :
  integer_values l ->
  Z.abs (match acc with Some a => a | None => 0 end) + abs_total l <= SQL.max_long ->
  SQL.sum_long ansi acc l
  = Ok (match acc with
        | Some a => Some (a + sum_non_null l)
        | None => if has_value l then Some (sum_non_null l) else None
        end).
Proof.
  revert acc. induction l as [|x l IH]; intros acc Hint Hb.
  - cbn [SQL.sum_long sum_non_null]. destruct acc; [do 2 f_equal; lia | reflexivity].
  - apply integer_values_cons in Hint as ([->|(v & ->)] & Hl).
    + cbn [SQL.sum_long SQL.sum_long_step bind]. rewrite (IH acc Hl Hb).
      reflexivity.
    + cbn [abs_total] in Hb. pose proof (abs_total_nonneg l) as Hnn.
      cbn [SQL.sum_long SQL.sum_long_step].
      rewrite add_long_exact by lia. cbn [bind].
      rewrite (IH (Some _) Hl) by lia.
      rewrite has_value_cons. cbn [sum_non_null orb].
      destruct acc; do 2 f_equal; lia.
Qed.

(** SUM over the integer values of a group that stay within the bigint
    range: NULL for a group without a value, the exact sum otherwise,
    whatever the mode. *)
Lemma sum_exact ansi l :
  integer_values l -> abs_total l <= SQL.max_long ->
  SQL.sum ansi l = Ok (exact_sum l).
Proof.
  intros Hint Hb. unfold SQL.sum, exact_sum.
  rewrite (integer_values_no_double _ Hint).
  rewrite (sum_long_exact ansi l None Hint) by (cbn; lia). cbn [bind].
  destruct (has_value l); reflexivity.
Qed.

(** A NULL changes nothing to a SUM, in any column and any mode. *)
Lemma sum_long_drop_null ansi l1 l2 acc :
  SQL.sum_long ansi acc (l1 ++ None :: l2) = SQL.sum_long ansi acc (l1 ++ l2).
Proof.
  revert acc. induction l1 as [|x l1 IH]; intros acc; [reflexivity|].
  cbn [app SQL.sum_long].
  destruct (SQL.sum_long_step ansi acc x); cbn [bind]; [apply IH | reflexivity].
Qed.

Lemma sum_double_drop_null l1 l2 acc :
  List.fold_left SQL.sum_double_step (l1 ++ None :: l2) acc
  = List.fold_left SQL.sum_double_step (l1 ++ l2) acc.
Proof.
  revert acc. induction l1 as [|x l1 IH]; intros acc; [reflexivity|].
  cbn [app List.fold_left]. apply IH.
Qed.

Lemma existsb_drop_null l1 l2 :
  List.existsb SQL.is_double (l1 ++ None :: l2)
  = List.existsb SQL.is_double (l1 ++ l2).
Proof. rewrite !List.existsb_app. reflexivity. Qed.

Lemma sum_drop_null ansi l1 l2 :
  SQL.sum ansi (l1 ++ None :: l2) = SQL.sum ansi (l1 ++ l2).
Proof.
  unfold SQL.sum, SQL.sum_double.
  now rewrite existsb_drop_null, sum_long_drop_null, sum_double_drop_null.
Qed.

Lemma integer_values_filter (p : VisaRecord -> bool) t :
  integer_values (issued_of t) -> integer_values (issued_of (List.filter p t)).
Proof.
  intros H x Hx. apply H. unfold issued_of in *.
  apply List.in_map_iff in Hx as (r & E & Hr). apply List.filter_In in Hr as (Hr & _).
  apply List.in_map_iff. eauto.
Qed.

Lemma abs_total_filter (p : VisaRecord -> bool) t :
  abs_total (issued_of (List.filter p t)) <= abs_total (issued_of t).
Proof.
  unfold issued_of. induction t as [|r t IH]; [reflexivity|].
  cbn [List.filter]. pose proof (abs_total_nonneg (List.map number_of_issued_numerical t)).
  destruct (p r); cbn [List.map abs_total];
    destruct (number_of_issued_numerical r) as [[v|d]|]; lia.
Qed.

Lemma integer_counts_filter (p : VisaRecord -> bool) t :
  integer_counts t -> integer_counts (List.filter p t).
Proof.
  intros (Hint & Hb). split; [now apply integer_values_filter|].
  pose proof (abs_total_filter p t). lia.
Qed.

(** The SUM of any part of a view of integer counts is exact. *)
Lemma sum_issued_exact ansi (p q : VisaRecord -> bool) t :
  integer_counts t ->
  SQL.sum ansi (issued_of (List.filter p (List.filter q t)))
  = Ok (exact_sum (issued_of (List.filter p (List.filter q t)))).
Proof.
  intros H. destruct (integer_counts_filter p _ (integer_counts_filter q _ H)).
  now apply sum_exact.
Qed.

(** *** GROUP BY *)

Section Grouping.

Context {R K : Type} `{EqDecision K}.
Variable key : R -> K.

Lemma in_distinct (l : list K) k : In k (SQL.distinct l) <-> In k l.
Proof.
  unfold SQL.distinct.
  rewrite <- !list_elem_of_In, elem_of_reverse, elem_of_remove_dups,
    elem_of_reverse.
  reflexivity.
Qed.

Lemma NoDup_distinct (l : list K) : NoDup (SQL.distinct l).
Proof.
  unfold SQL.distinct.
  rewrite reverse_Permutation. apply NoDup_remove_dups.
Qed.

Lemma group_by_keys rs :
  List.map fst (SQL.group_by key rs) = SQL.distinct (List.map key rs).
Proof.
  unfold SQL.group_by. rewrite List.map_map. cbn [fst]. apply List.map_id.
Qed.

Lemma in_group_by rs k g :
  In (k, g) (SQL.group_by key rs)
  <-> In k (List.map key rs)
      /\ g = List.filter (fun r => bool_decide (key r = k)) rs.
Proof.
  unfold SQL.group_by. rewrite List.in_map_iff. split.
  - intros (k' & E & Hin). inversion E; subst.
    split; [now apply in_distinct | reflexivity].
  - intros (Hin & ->). exists k. split; [reflexivity | now apply in_distinct].
Qed.

(** Every group has a row. *)
Lemma group_by_row rs k g :
  In (k, g) (SQL.group_by key rs) -> exists r, In r rs /\ key r = k.
Proof.
  rewrite in_group_by. intros (Hin & _).
  apply List.in_map_iff in Hin as (r & E & Hr). eauto.
Qed.

End Grouping.

(** *** ORDER BY *)

Section Sorting.

Context {A : Type}.
Variable leb : A -> A -> bool.
Hypothesis leb_total : forall a b, leb a b = true \/ leb b a = true.
Hypothesis leb_trans : forall a b c, leb a b = true -> leb b c = true -> leb a c = true.

Let le (a b : A) : Prop := leb a b = true.

Lemma insert_perm x l : Permutation (SQL.insert leb x l) (x :: l).
Proof.
  induction l as [|y l IH]; cbn [SQL.insert]; [reflexivity|].
  destruct (leb x y); [reflexivity|].
  rewrite IH. apply perm_swap.
Qed.

Lemma sort_perm l : Permutation (SQL.sort leb l) l.
Proof.
  induction l as [|x l IH]; cbn [SQL.sort]; [reflexivity|].
  now rewrite insert_perm, IH.
Qed.

Lemma in_sort l x : In x (SQL.sort leb l) <-> In x l.
Proof.
  split; apply Permutation_in; [apply sort_perm | symmetry; apply sort_perm].
Qed.

Lemma insert_sorted x l :
  StronglySorted le l -> StronglySorted le (SQL.insert leb x l).
Proof.
  induction 1 as [|y l Hs IH Hall]; cbn [SQL.insert].
  - constructor; [constructor | constructor].
  - destruct (leb x y) eqn:E.
    + constructor; [now constructor|].
      constructor; [exact E|].
      eapply List.Forall_impl; [|exact Hall].
      intros z Hz. exact (leb_trans _ _ _ E Hz).
    + constructor; [exact IH|].
      assert (Hyx : le y x) by (destruct (leb_total x y); [congruence | assumption]).
      eapply Permutation_Forall; [symmetry; apply insert_perm|].
      now constructor.
Qed.

Lemma sort_sorted l : StronglySorted le (SQL.sort leb l).
Proof.
  induction l as [|x l IH]; cbn [SQL.sort]; [constructor|].
  now apply insert_sorted.
Qed.

Lemma StronglySorted_split (l1 l2 : list A) :
  StronglySorted le (l1 ++ l2) ->
  StronglySorted le l1
  /\ forall a b, In a l1 -> In b l2 -> le a b.
Proof.
  induction l1 as [|x l1 IH]; cbn [app]; intros H.
  - split; [constructor | contradiction].
  - apply StronglySorted_inv in H as (Hs & Hall).
    destruct (IH Hs) as (Hs1 & Hcross).
    rewrite List.Forall_app in Hall. destruct Hall as (Hall1 & Hall2).
    split; [now constructor|].
    intros a b [<-|Ha] Hb.
    + rewrite List.Forall_forall in Hall2. now apply Hall2.
    + now apply Hcross.
Qed.

(** LIMIT after ORDER BY: the kept rows are sorted and every kept row
    is ordered before every row cut off. *)
Lemma limit_sort n l :
  StronglySorted le (SQL.limit n (SQL.sort leb l))
  /\ forall a b, In a (SQL.limit n (SQL.sort leb l)) ->
                 In b (List.skipn n (SQL.sort leb l)) -> le a b.
Proof.
  apply StronglySorted_split. unfold SQL.limit.
  rewrite List.firstn_skipn. apply sort_sorted.
Qed.

End Sorting.

Lemma StronglySorted_limit {A} (le : A -> A -> Prop) (n : nat) (l : list A) :
  StronglySorted le l ->
  StronglySorted le (SQL.limit n l)
  /\ forall a b, In a (SQL.limit n l) -> In b (List.skipn n l) -> le a b.
Proof.
  intros H. unfold SQL.limit. rewrite <- (List.firstn_skipn n l) in H.
  revert H. generalize (List.firstn n l) (List.skipn n l). intros l1 l2.
  induction l1 as [|x l1 IH]; cbn [app]; intros H.
  - split; [constructor | contradiction].
  - apply StronglySorted_inv in H as (Hs & Hall).
    destruct (IH Hs) as (Hs1 & Hcross).
    rewrite List.Forall_app in Hall. destruct Hall as (Hall1 & Hall2).
    split; [now constructor|].
    intros a b [<-|Ha] Hb.
    + rewrite List.Forall_forall in Hall2. now apply Hall2.
    + now apply Hcross.
Qed.

Lemma desc_leb_total a b : SQL.desc_leb a b = true \/ SQL.desc_leb b a = true.
Proof.
  destruct a as [x|], b as [y|]; cbn [SQL.desc_leb]; auto.
  rewrite !Z.leb_le. lia.
Qed.

Lemma desc_leb_trans a b c :
  SQL.desc_leb a b = true -> SQL.desc_leb b c = true -> SQL.desc_leb a c = true.
Proof.
  destruct a as [x|], b as [y|], c as [z|]; cbn [SQL.desc_leb]; try congruence.
  rewrite !Z.leb_le. lia.
Qed.

Lemma asc_leb_total a b : SQL.asc_leb a b = true \/ SQL.asc_leb b a = true.
Proof.
  destruct a as [x|], b as [y|]; cbn; auto.
  destruct (Z.leb_spec x y); [now left|]. right. apply Z.leb_le. lia.
Qed.

Lemma asc_leb_trans a b c :
  SQL.asc_leb a b = true -> SQL.asc_leb b c = true -> SQL.asc_leb a c = true.
Proof.
  destruct a as [x|], b as [y|], c as [z|]; cbn; try congruence.
  rewrite !Z.leb_le. lia.
Qed.

Lemma filter_filter_implied {A} (p q : A -> bool) (l : list A) :
  (forall x, p x = true -> q x = true) ->
  List.filter p (List.filter q l) = List.filter p l.
Proof.
  intros Himp. induction l as [|x l IH]; cbn [List.filter]; [reflexivity|].
  destruct (q x) eqn:Eq; cbn [List.filter].
  - now rewrite IH.
  - destruct (p x) eqn:Ep; [|exact IH].
    rewrite (Himp x Ep) in Eq. discriminate.
Qed.

Lemma filter_map_comm {A B} (f : A -> B) (p : B -> bool) (l : list A) :
  List.filter p (List.map f l) = List.map f (List.filter (fun x => p (f x)) l).
Proof.
  induction l as [|x l IH]; cbn [List.filter List.map]; [reflexivity|].
  destruct (p (f x)); cbn [List.map]; now rewrite IH.
Qed.

(** *** The engines *)

Lemma reference_engine_lawful : Lawful reference_engine.
Proof.
  constructor; cbn [arrange_cont order_countries order_geo order_counts reference_engine];
    intros l.
  - reflexivity.
  - apply sort_perm.
  - apply (sort_sorted (fun a b => SQL.desc_leb (ctry_visa_issued a) (ctry_visa_issued b))).
    + intros a b. apply desc_leb_total.
    + intros a b c. apply desc_leb_trans.
  - apply sort_perm.
  - apply (sort_sorted (fun a b => SQL.asc_leb (geo_year a) (geo_year b))).
    + intros a b. apply asc_leb_total.
    + intros a b c. apply asc_leb_trans.
  - apply sort_perm.
  - apply (sort_sorted (fun a b : option string * Z => snd b <=? snd a)).
    + intros a b. rewrite !Z.leb_le. lia.
    + intros a b c. rewrite !Z.leb_le. lia.
Qed.

Lemma legacy_engine_lawful : Lawful legacy_engine.
Proof.
  destruct reference_engine_lawful as [H1 H2 H3 H4 H5 H6 H7].
  constructor; assumption.
Qed.

Lemma reversing_engine_lawful : Lawful reversing_engine.
Proof.
  destruct reference_engine_lawful as [H1 H2 H3 H4 H5 H6 H7].
  constructor; cbn [arrange_cont order_countries order_geo order_counts reversing_engine];
    intros l; auto.
  - symmetry. apply Permutation_rev.
  - rewrite H2. symmetry. apply Permutation_rev.
  - rewrite H4. symmetry. apply Permutation_rev.
  - rewrite H6. symmetry. apply Permutation_rev.
Qed.

(** *** WHERE *)

Lemma not_in_sentinels (k : option string) :
  SQL.holds (SQL.not_in k sentinels) = true
  <-> exists c, k = Some c /\ c <> "total" /\ c <> "others".
Proof.
  destruct k as [c|].
  - unfold SQL.not_in, sentinels. cbn [SQL.in_list SQL.eq_str].
    destruct (String.eqb_spec c "total") as [E1|N1];
      destruct (String.eqb_spec c "others") as [E2|N2];
      cbn [SQL.or3 SQL.not3 option_map negb SQL.holds]; split;
      try discriminate;
      try (intros (c' & E & N1' & N2'); inversion E; subst c'; congruence).
    intros _. eauto.
  - split; [discriminate | intros (c & E & _); discriminate].
Qed.

Lemma where_geo_holds r :
  SQL.holds (where_geo r) = true
  <-> exists c, country r = Some c /\ c <> "total" /\ c <> "others".
Proof. apply not_in_sentinels. Qed.

Lemma where_country_holds r :
  SQL.holds (where_country r) = true
  <-> year r = Some 2017
      /\ exists c, country r = Some c /\ c <> "total" /\ c <> "others".
Proof.
  unfold where_country. split.
  - intros H.
    destruct (SQL.not_in (country r) sentinels) as [[|]|] eqn:En;
      destruct (year r) as [y|];
      cbn [SQL.and3 SQL.eq_int SQL.holds] in H; try discriminate;
      destruct (Z.eqb_spec y 2017) as [Ey|Hne];
      cbn [SQL.and3 SQL.holds] in H; try discriminate.
    split; [now f_equal|]. apply not_in_sentinels. now rewrite En.
  - intros (Ey & Hc). apply not_in_sentinels in Hc. rewrite Ey.
    destruct (SQL.not_in (country r) sentinels) as [[|]|]; cbn in Hc;
      try discriminate.
    reflexivity.
Qed.

Lemma where_cont_holds r :
  SQL.holds (where_cont r) = true <-> continent r <> None.
Proof.
  unfold where_cont. destruct (continent r); cbn; split; congruence.
Qed.

Lemma in_limit {A} n (l : list A) x : In x (SQL.limit n l) -> In x l.
Proof.
  unfold SQL.limit. intros H. rewrite <- (List.firstn_skipn n l).
  apply List.in_or_app. now left.
Qed.

Lemma skipn_in_firstn_full {A} n (l : list A) x :
  In x (List.skipn n l) -> List.length (List.firstn n l) = n.
Proof.
  intros Hin. apply List.firstn_length_le.
  destruct (Nat.le_gt_cases n (List.length l)) as [Hle|Hgt]; [exact Hle|].
  rewrite List.skipn_all2 in Hin by lia. contradiction.
Qed.

(** ** The three queries *)

Lemma Forall2_map_l {A B C} (P : B -> C -> Prop) (f : A -> B) l l' :
  Forall2 P (List.map f l) l' <-> Forall2 (fun x y => P (f x) y) l l'.
Proof.
  revert l'. induction l as [|x l IH]; intros l'; cbn [List.map].
  - split; intros H; inversion H; constructor.
  - split; intros H; inversion H; subst; constructor; try assumption; now apply IH.
Qed.

Lemma Forall2_In_r {A B} (P : A -> B -> Prop) l l' y :
  Forall2 P l l' -> In y l' -> exists x, In x l /\ P x y.
Proof.
  induction 1 as [|x y' l l' Hxy _ IH]; [contradiction|].
  intros [<-|Hin].
  - exists x. split; [now left | exact Hxy].
  - destruct (IH Hin) as (x' & Hx' & HP). exists x'. split; [now right | exact HP].
Qed.

Lemma Forall2_In_l {A B} (P : A -> B -> Prop) l l' x :
  Forall2 P l l' -> In x l -> exists y, In y l' /\ P x y.
Proof.
  induction 1 as [|x' y l l' Hxy _ IH]; [contradiction|].
  intros [<-|Hin].
  - exists y. split; [now left | exact Hxy].
  - destruct (IH Hin) as (y' & Hy' & HP). exists y'. split; [now right | exact HP].
Qed.

Lemma Forall2_map_eq {A B} (f : B -> A) l l' :
  Forall2 (fun x y => f y = x) l l' -> List.map f l' = l.
Proof.
  induction 1 as [|x y l l' Hxy _ IH]; [reflexivity|].
  cbn [List.map]. now rewrite Hxy, IH.
Qed.

Lemma Forall2_map_diag {A B} (P : A -> B -> Prop) (f : A -> B) l :
  (forall x, P x (f x)) -> Forall2 P l (List.map f l).
Proof. intros H. induction l; cbn [List.map]; constructor; auto. Qed.

(** *** Grouped sums *)

Section GroupedSums.

Context {K Row : Type} `{EqDecision K}.
Variable ansi : bool.
Variable key : VisaRecord -> K.
Variable mk : K -> option number -> Row.
Variable key_of : Row -> K.
Variable sum_of : Row -> option number.
Hypothesis key_of_mk : forall k s, key_of (mk k s) = k.
Hypothesis sum_of_mk : forall k s, sum_of (mk k s) = s.
Hypothesis mk_eta : forall row, mk (key_of row) (sum_of row) = row.

Lemma grouped_sums_Ok rs rows :
  grouped_sums ansi key mk rs = Ok rows
  <-> Forall2
        (fun k row =>
           key_of row = k /\ SQL.sum ansi (issued_of (part key rs k)) = Ok (sum_of row))
        (SQL.distinct (List.map key rs)) rows.
Proof.
  unfold grouped_sums, SQL.group_by. rewrite map_rows_Ok, Forall2_map_l.
  cbn [fst snd]. unfold part.
  split; intros H; (eapply Forall2_impl; [exact H|]); cbn beta; intros k row.
  - intros Hrow. apply bind_Ok_inv in Hrow as (s & Hs & Hrow).
    inversion Hrow; subst row. now rewrite key_of_mk, sum_of_mk.
  - intros (<- & Hs). rewrite Hs. cbn [bind]. now rewrite mk_eta.
Qed.

Lemma in_grouped_sums rs rows row :
  grouped_sums ansi key mk rs = Ok rows ->
  In row rows
  <-> In (key_of row) (List.map key rs)
      /\ SQL.sum ansi (issued_of (part key rs (key_of row))) = Ok (sum_of row).
Proof.
  intros H. apply grouped_sums_Ok in H. split.
  - intros Hin. destruct (Forall2_In_r _ _ _ _ H Hin) as (k & Hk & Hk' & Hs).
    subst k. split; [exact (proj1 (in_distinct _ _) Hk) | exact Hs].
  - intros (Hk & Hs). apply (proj2 (in_distinct _ _)) in Hk.
    destruct (Forall2_In_l _ _ _ _ H Hk) as (row' & Hin & Hk' & Hs').
    rewrite Hs in Hs'. inversion Hs' as [Hsum].
    rewrite <- (mk_eta row), <- Hk', Hsum, mk_eta. exact Hin.
Qed.

Lemma grouped_sums_keys rs rows :
  grouped_sums ansi key mk rs = Ok rows ->
  List.map key_of rows = SQL.distinct (List.map key rs).
Proof.
  intros H. apply grouped_sums_Ok in H. apply Forall2_map_eq.
  eapply Forall2_impl; [exact H|]. now intros k row (Hk & _).
Qed.

(** On integer counts within the bigint range the rows are the exact
    sums of the groups, whatever the mode. *)
Lemma grouped_sums_exact rs :
  integer_counts rs ->
  grouped_sums ansi key mk rs
  = Ok (List.map (fun k => mk k (exact_sum (issued_of (part key rs k))))
          (SQL.distinct (List.map key rs))).
Proof.
  intros Hrs. apply grouped_sums_Ok.
  apply (Forall2_map_diag _ (fun k => mk k (exact_sum (issued_of (part key rs k))))).
  intros k. rewrite key_of_mk, sum_of_mk. split; [reflexivity|].
  destruct (integer_counts_filter (fun r => bool_decide (key r = k)) rs Hrs).
  now apply sum_exact.
Qed.

End GroupedSums.

(** *** The groups of the three queries *)

Lemma in_cont_groups E t rows row :
  cont_groups E t = Ok rows ->
  In row rows
  <-> In (cont_year row, cont_continent row)
        (List.map (fun r => (year r, continent r))
           (List.filter (fun r => SQL.holds (where_cont r)) t))
      /\ SQL.sum (ansi_enabled E)
           (issued_of (cont_group t (cont_year row) (cont_continent row)))
         = Ok (cont_visa_issued row).
Proof.
  apply (in_grouped_sums (ansi_enabled E) (fun r => (year r, continent r))
           (fun k s => mkContRow (fst k) (snd k) s)
           (fun row => (cont_year row, cont_continent row)) cont_visa_issued).
  - now intros [y k] s.
  - reflexivity.
  - now intros [y k s].
Qed.

Lemma in_country_groups E t rows row :
  country_groups E t = Ok rows ->
  In row rows
  <-> In (ctry_country row)
        (List.map country (List.filter (fun r => SQL.holds (where_country r)) t))
      /\ SQL.sum (ansi_enabled E) (issued_of (country_group t (ctry_country row)))
         = Ok (ctry_visa_issued row).
Proof.
  apply (in_grouped_sums (ansi_enabled E) country mkCountryRow
           ctry_country ctry_visa_issued).
  - reflexivity.
  - reflexivity.
  - now intros [k s].
Qed.

Lemma in_geo_groups E t rows row :
  geo_groups E t = Ok rows ->
  In row rows
  <-> In (geo_year row, geo_country row)
        (List.map (fun r => (year r, country r))
           (List.filter (fun r => SQL.holds (where_geo r)) t))
      /\ SQL.sum (ansi_enabled E)
           (issued_of (geo_group t (geo_year row) (geo_country row)))
         = Ok (geo_visa_issued row).
Proof.
  apply (in_grouped_sums (ansi_enabled E) (fun r => (year r, country r))
           (fun k s => mkGeoRow (fst k) (snd k) s)
           (fun row => (geo_year row, geo_country row)) geo_visa_issued).
  - now intros [y k] s.
  - reflexivity.
  - now intros [y k s].
Qed.

Lemma cont_groups_keys E t rows :
  cont_groups E t = Ok rows ->
  List.map (fun row => (cont_year row, cont_continent row)) rows
  = SQL.distinct
      (List.map (fun r => (year r, continent r))
         (List.filter (fun r => SQL.holds (where_cont r)) t)).
Proof.
  apply (grouped_sums_keys (ansi_enabled E) (fun r => (year r, continent r))
           (fun k s => mkContRow (fst k) (snd k) s)
           (fun row => (cont_year row, cont_continent row)) cont_visa_issued).
  - now intros [y k] s.
  - reflexivity.
  - now intros [y k s].
Qed.


Lemma geo_groups_keys E t rows :
  geo_groups E t = Ok rows ->
  List.map (fun row => (geo_year row, geo_country row)) rows
  = SQL.distinct
      (List.map (fun r => (year r, country r))
         (List.filter (fun r => SQL.holds (where_geo r)) t)).
Proof.
  apply (grouped_sums_keys (ansi_enabled E) (fun r => (year r, country r))
           (fun k s => mkGeoRow (fst k) (snd k) s)
           (fun row => (geo_year row, geo_country row)) geo_visa_issued).
  - now intros [y k] s.
  - reflexivity.
  - now intros [y k s].
Qed.

(** On integer counts within the bigint range the three aggregations
    return, with the exact sums of their groups. *)
Lemma cont_groups_exact E t :
  integer_counts t ->
  cont_groups E t
  = Ok (List.map
          (fun k => mkContRow (fst k) (snd k)
                      (exact_sum (issued_of (cont_group t (fst k) (snd k)))))
          (SQL.distinct
             (List.map (fun r => (year r, continent r))
                (List.filter (fun r => SQL.holds (where_cont r)) t)))).
Proof.
  intros H.
  rewrite <- (List.map_ext (fun k => mkContRow (fst k) (snd k)
                (exact_sum (issued_of (part (fun r => (year r, continent r))
                   (List.filter (fun r => SQL.holds (where_cont r)) t) k)))))
    by (now intros [y k]).
  apply (grouped_sums_exact (ansi_enabled E) (fun r => (year r, continent r))
           (fun k s => mkContRow (fst k) (snd k) s)
           (fun row => (cont_year row, cont_continent row)) cont_visa_issued).
  - now intros [y k] s.
  - reflexivity.
  - now intros [y k s].
  - now apply integer_counts_filter.
Qed.

Lemma country_groups_exact E t :
  integer_counts t ->
  country_groups E t
  = Ok (List.map
          (fun k => mkCountryRow k (exact_sum (issued_of (country_group t k))))
          (SQL.distinct
             (List.map country
                (List.filter (fun r => SQL.holds (where_country r)) t)))).
Proof.
  intros H.
  apply (grouped_sums_exact (ansi_enabled E) country mkCountryRow
           ctry_country ctry_visa_issued); try reflexivity.
  - now intros [k s].
  - now apply integer_counts_filter.
Qed.

Lemma geo_groups_exact E t :
  integer_counts t ->
  geo_groups E t
  = Ok (List.map
          (fun k => mkGeoRow (fst k) (snd k)
                      (exact_sum (issued_of (geo_group t (fst k) (snd k)))))
          (SQL.distinct
             (List.map (fun r => (year r, country r))
                (List.filter (fun r => SQL.holds (where_geo r)) t)))).
Proof.
  intros H.
  rewrite <- (List.map_ext (fun k => mkGeoRow (fst k) (snd k)
                (exact_sum (issued_of (part (fun r => (year r, country r))
                   (List.filter (fun r => SQL.holds (where_geo r)) t) k)))))
    by (now intros [y k]).
  apply (grouped_sums_exact (ansi_enabled E) (fun r => (year r, country r))
           (fun k s => mkGeoRow (fst k) (snd k) s)
           (fun row => (geo_year row, geo_country row)) geo_visa_issued).
  - now intros [y k] s.
  - reflexivity.
  - now intros [y k s].
  - now apply integer_counts_filter.
Qed.

(** *** What the engine may do with the rows *)

Lemma lawful_nil {A} (f : list A -> list A) :
  (forall l, Permutation (f l) l) -> f [] = [].
Proof. intros H. apply Permutation_nil. symmetry. apply H. Qed.

Lemma lawful_one {A} (f : list A -> list A) a :
  (forall l, Permutation (f l) l) -> f [a] = [a].
Proof. intros H. apply Permutation_length_1_inv. symmetry. apply H. Qed.




Lemma null_count_table_integer_counts : integer_counts null_count_table.
Proof. integer_counts_by_computation. Qed.

Lemma no_country_table_integer_counts : integer_counts no_country_table.
Proof. integer_counts_by_computation. Qed.

(** *** Q2 *)

Lemma df_country_Ok E t rows :
  df_country E t = Ok rows
  <-> exists groups,
        country_groups E t = Ok groups
        /\ rows = SQL.limit 10 (order_countries E groups).
Proof.
  unfold df_country. split.
  - intros H. apply bind_Ok_inv in H as (groups & Hg & H).
    inversion H. eauto.
  - intros (groups & -> & ->). reflexivity.
Qed.

(** Within year 2017 and outside the sentinels, the group of a country
    is the set of its rows of that year. *)
Lemma country_group_2017 t c :
  c <> "total" -> c <> "others" ->
  country_group t (Some c) = rows_of_country_2017 c t.
Proof.
  intros H1 H2. unfold country_group, rows_of_country_2017.
  induction t as [|r t IH]; [reflexivity|]. cbn [List.filter].
  destruct (SQL.holds (where_country r)) eqn:Ew.
  - apply where_country_holds in Ew as (Ey & _).
    cbn [List.filter]. rewrite IH.
    rewrite (bool_decide_eq_true_2 _ Ey). reflexivity.
  - rewrite IH.
    destruct (bool_decide (year r = Some 2017)) eqn:Ey;
      destruct (bool_decide (country r = Some c)) eqn:Ec; cbn [andb]; try reflexivity.
    apply bool_decide_eq_true_1 in Ey. apply bool_decide_eq_true_1 in Ec.
    assert (SQL.holds (where_country r) = true) by (apply where_country_holds; eauto).
    congruence.
Qed.

Lemma in_df_country E t rows row :
  Lawful E -> df_country E t = Ok rows -> In row rows ->
  exists c r,
    ctry_country row = Some c /\ c <> "total" /\ c <> "others"
    /\ In r t /\ year r = Some 2017 /\ country r = Some c
    /\ SQL.sum (ansi_enabled E) (issued_of (rows_of_country_2017 c t))
       = Ok (ctry_visa_issued row).
Proof.
  intros HE H Hrow. apply df_country_Ok in H as (groups & Hg & ->).
  apply in_limit in Hrow.
  apply (Permutation_in _ (order_countries_perm E HE groups)) in Hrow.
  apply (in_country_groups E t groups row Hg) in Hrow as (Hk & Hsum).
  apply List.in_map_iff in Hk as (r & Ek & Hr).
  apply List.filter_In in Hr as (Hr & Hw).
  apply where_country_holds in Hw as (Ey & c & Ec & N1 & N2).
  exists c, r. rewrite <- Ek. repeat split; try assumption.
  rewrite <- Hsum, <- Ek, Ec. now rewrite country_group_2017.
Qed.





(** *** Q1 and Q3 *)

Lemma df_cont_Ok E t rows :
  df_cont E t = Ok rows
  <-> exists groups, cont_groups E t = Ok groups /\ rows = arrange_cont E groups.
Proof.
  unfold df_cont. split.
  - intros H. apply bind_Ok_inv in H as (groups & Hg & H). inversion H. eauto.
  - intros (groups & -> & ->). reflexivity.
Qed.

Lemma df_geo_Ok E t rows :
  df_geo E t = Ok rows
  <-> exists groups, geo_groups E t = Ok groups /\ rows = order_geo E groups.
Proof.
  unfold df_geo. split.
  - intros H. apply bind_Ok_inv in H as (groups & Hg & H). inversion H. eauto.
  - intros (groups & -> & ->). reflexivity.
Qed.

Lemma in_df_cont E t rows row :
  Lawful E -> df_cont E t = Ok rows ->
  In row rows
  <-> In (cont_year row, cont_continent row)
        (List.map (fun r => (year r, continent r))
           (List.filter (fun r => SQL.holds (where_cont r)) t))
      /\ SQL.sum (ansi_enabled E)
           (issued_of (cont_group t (cont_year row) (cont_continent row)))
         = Ok (cont_visa_issued row).
Proof.
  intros HE H. apply df_cont_Ok in H as (groups & Hg & ->).
  rewrite <- (in_cont_groups E t groups row Hg).
  split; apply Permutation_in;
    [|symmetry]; apply (arrange_cont_perm E HE).
Qed.

Lemma in_df_geo E t rows row :
  Lawful E -> df_geo E t = Ok rows ->
  In row rows
  <-> In (geo_year row, geo_country row)
        (List.map (fun r => (year r, country r))
           (List.filter (fun r => SQL.holds (where_geo r)) t))
      /\ SQL.sum (ansi_enabled E)
           (issued_of (geo_group t (geo_year row) (geo_country row)))
         = Ok (geo_visa_issued row).
Proof.
  intros HE H. apply df_geo_Ok in H as (groups & Hg & ->).
  rewrite <- (in_geo_groups E t groups row Hg).
  split; apply Permutation_in;
    [|symmetry]; apply (order_geo_perm E HE).
Qed.

(** On integer counts within the bigint range the three queries
    return. *)
Lemma queries_return E t :
  integer_counts t ->
  exists r1 r2 r3,
    df_cont E t = Ok r1 /\ df_country E t = Ok r2 /\ df_geo E t = Ok r3.
Proof.
  intros Ht. unfold df_cont, df_country, df_geo.
  rewrite (cont_groups_exact E t Ht), (country_groups_exact E t Ht),
    (geo_groups_exact E t Ht). cbn [bind].
  do 3 eexists. repeat split; reflexivity.
Qed.

Lemma sample_table_a_integer_counts : integer_counts sample_table_a.
Proof. integer_counts_by_computation. Qed.

Lemma sample_table_b_integer_counts : integer_counts sample_table_b.
Proof. integer_counts_by_computation. Qed.

(** C7, as stated, fails: the only group of [null_count_table] has no
    non-null issued count; the sum of its non-null values is 0, and the
    query returns NULL. And the sum of two counts of 2^62 is no bigint:
    with ANSI mode the query raises, without it the sum wraps around to
    -2^63. *)
Lemma C7_all_null_group_sums_to_null :
  df_geo reference_engine null_count_table
  = Ok [ {| geo_year := Some 2017; geo_country := Some "FR"; geo_visa_issued := None |} ]
  /\ issued_of (geo_group null_count_table (Some 2017) (Some "FR")) = [None]
  /\ (forall row,
        In row [ {| geo_year := Some 2017; geo_country := Some "FR";
                    geo_visa_issued := None |} ] ->
        geo_visa_issued row
        <> Some (NInt (sum_non_null
                         (issued_of (geo_group null_count_table
                                       (geo_year row) (geo_country row))))))
  /\ df_geo reference_engine overflow_table = Raise ArithmeticException
  /\ df_geo legacy_engine overflow_table
     = Ok [ {| geo_year := Some 2017; geo_country := Some "FR";
               geo_visa_issued := Some (NInt (- 2 ^ 63)) |} ]
  /\ sum_non_null (issued_of (geo_group overflow_table (Some 2017) (Some "FR")))
     = 2 ^ 63.
Proof.
  split; [reflexivity|]. split; [reflexivity|].
  split; [intros row [<-|[]]; discriminate|].
  split; [now vm_compute|]. split; now vm_compute.
Qed.

(** C7 (amended): on a view of integer counts whose absolute values add
    up to at most 2^63 - 1, the three queries return on every engine,
    and in each of them the sum of a group that has at least one
    non-null issued count is the sum of its non-null issued counts, and
    the sum of a group that has none is NULL; taking a NULL out of a
    group changes nothing to its SUM. *)
Theorem C7_sum_of_non_null_values (E : Engine) (t : list VisaRecord) :
  Lawful E ->
  integer_counts t ->
  (exists r1 r2 r3,
     df_cont E t = Ok r1 /\ df_country E t = Ok r2 /\ df_geo E t = Ok r3
     /\ (forall row, In row r1 ->
           let vals := issued_of (cont_group t (cont_year row) (cont_continent row)) in
           cont_visa_issued row
           = if has_value vals then Some (NInt (sum_non_null vals)) else None)
     /\ (forall row, In row r2 ->
           let vals := issued_of (country_group t (ctry_country row)) in
           ctry_visa_issued row
           = if has_value vals then Some (NInt (sum_non_null vals)) else None)
     /\ (forall row, In row r3 ->
           let vals := issued_of (geo_group t (geo_year row) (geo_country row)) in
           geo_visa_issued row
           = if has_value vals then Some (NInt (sum_non_null vals)) else None))
  /\ (forall l1 l2,
        SQL.sum (ansi_enabled E) (l1 ++ None :: l2)
        = SQL.sum (ansi_enabled E) (l1 ++ l2)).
Proof.
  intros HE Ht. split; [|intros l1 l2; apply sum_drop_null].
  destruct (queries_return E t Ht) as (r1 & r2 & r3 & H1 & H2 & H3).
  exists r1, r2, r3. repeat split; try assumption.
  - intros row Hrow vals.
    apply (in_df_cont E t r1 row HE H1) in Hrow as (_ & Hsum).
    unfold cont_group in Hsum. rewrite (sum_issued_exact _ _ _ _ Ht) in Hsum.
    inversion Hsum as [Hs]. reflexivity.
  - intros row Hrow vals.
    apply df_country_Ok in H2 as (groups & Hg & ->).
    apply in_limit in Hrow.
    apply (Permutation_in _ (order_countries_perm E HE groups)) in Hrow.
    apply (in_country_groups E t groups row Hg) in Hrow as (_ & Hsum).
    unfold country_group in Hsum. rewrite (sum_issued_exact _ _ _ _ Ht) in Hsum.
    inversion Hsum as [Hs]. reflexivity.
  - intros row Hrow vals.
    apply (in_df_geo E t r3 row HE H3) in Hrow as (_ & Hsum).
    unfold geo_group in Hsum. rewrite (sum_issued_exact _ _ _ _ Ht) in Hsum.
    inversion Hsum as [Hs]. reflexivity.
Qed.

Lemma C7_sum_of_non_null_values_witness :
  Lawful reference_engine
  /\ integer_counts sample_table_a
  /\ forall l1 l2,
       SQL.sum (ansi_enabled reference_engine) (l1 ++ None :: l2)
       = SQL.sum (ansi_enabled reference_engine) (l1 ++ l2).
Proof.
  split; [exact reference_engine_lawful|].
  split; [exact sample_table_a_integer_counts|].
  exact (proj2 (C7_sum_of_non_null_values reference_engine sample_table_a
                  reference_engine_lawful sample_table_a_integer_counts)).
Defined.

(** ** Rows without a country *)

Lemma group_by_map {R K} `{EqDecision K} (key : R -> K) (h : R -> R) rs :
  (forall r, key (h r) = key r) ->
  SQL.group_by key (List.map h rs)
  = List.map (fun g => (fst g, List.map h (snd g))) (SQL.group_by key rs).
Proof.
  intros Hkey. unfold SQL.group_by.
  rewrite !List.map_map.
  rewrite (List.map_ext (fun x => key (h x)) key Hkey).
  apply List.map_ext. intros k. cbn [fst snd]. f_equal.
  rewrite filter_map_comm. f_equal.
  apply List.filter_ext. intros r. now rewrite Hkey.
Qed.

Lemma holds_has_country (p : VisaRecord -> SQL.tri) :
  (forall r, SQL.holds (p r) = true -> has_country r = true) ->
  forall t,
    List.filter (fun r => SQL.holds (p r)) (List.filter has_country t)
    = List.filter (fun r => SQL.holds (p r)) t.
Proof. intros H t. now apply filter_filter_implied. Qed.

Lemma where_country_has_country r :
  SQL.holds (where_country r) = true -> has_country r = true.
Proof.
  intros H. apply where_country_holds in H as (_ & c & E & _).
  unfold has_country. now rewrite E.
Qed.

Lemma where_geo_has_country r :
  SQL.holds (where_geo r) = true -> has_country r = true.
Proof.
  intros H. apply where_geo_holds in H as (c & E & _).
  unfold has_country. now rewrite E.
Qed.

(** C9: the NOT IN test is UNKNOWN on a null country, so the WHERE
    clauses of Q2 and Q3 reject every row without a country: on every
    engine both queries do the same with these rows removed, and no row
    of their results has a null country. Q1 keeps exactly the rows with
    a continent, and what it does does not depend on the countries at
    all. *)
Theorem C9_null_country_rows (E : Engine) (t : list VisaRecord) :
  Lawful E ->
  SQL.not_in None sentinels = None
  /\ (forall r, country r = None ->
        SQL.holds (where_country r) = false /\ SQL.holds (where_geo r) = false)
  /\ df_country E (List.filter has_country t) = df_country E t
  /\ df_geo E (List.filter has_country t) = df_geo E t
  /\ (forall rows, df_country E t = Ok rows ->
        forall row, In row rows -> ctry_country row <> None)
  /\ (forall rows, df_geo E t = Ok rows ->
        forall row, In row rows -> geo_country row <> None)
  /\ (forall r, SQL.holds (where_cont r) = true <-> continent r <> None)
  /\ (forall f, df_cont E (List.map (with_country f) t) = df_cont E t)
  /\ df_cont E no_country_table
     = Ok [ {| cont_year := Some 2017; cont_continent := Some "Asia";
               cont_visa_issued := Some (NInt 5) |} ]
  /\ df_country E no_country_table = Ok []
  /\ df_geo E no_country_table = Ok [].
Proof.
  intros HE.
  split; [reflexivity|].
  split.
  { intros r Ec. split.
    - destruct (SQL.holds (where_country r)) eqn:H; [|reflexivity].
      apply where_country_has_country in H. unfold has_country in H.
      rewrite Ec in H. discriminate.
    - destruct (SQL.holds (where_geo r)) eqn:H; [|reflexivity].
      apply where_geo_has_country in H. unfold has_country in H.
      rewrite Ec in H. discriminate. }
  split.
  { unfold df_country, country_groups.
    now rewrite (holds_has_country where_country where_country_has_country). }
  split.
  { unfold df_geo, geo_groups.
    now rewrite (holds_has_country where_geo where_geo_has_country). }
  split.
  { intros rows Hrows row Hrow.
    destruct (in_df_country E t rows row HE Hrows Hrow) as (c & _ & -> & _).
    discriminate. }
  split.
  { intros rows Hrows row Hrow.
    apply (in_df_geo E t rows row HE Hrows) in Hrow as (Hk & _).
    apply List.in_map_iff in Hk as (r & Ek & Hr).
    apply List.filter_In in Hr as (_ & Hw).
    apply where_geo_holds in Hw as (c & Ec & _).
    injection Ek as Ey Ek. rewrite <- Ek, Ec. discriminate. }
  split; [apply where_cont_holds|].
  split.
  { intros f. unfold df_cont, cont_groups.
    rewrite filter_map_comm.
    rewrite (group_by_map (fun r => (year r, continent r)) (with_country f))
      by reflexivity.
    f_equal. clear. induction (SQL.group_by _ _) as [|g gs IH]; [reflexivity|].
    cbn [List.map map_rows fst snd]. rewrite IH.
    unfold issued_of. rewrite List.map_map. reflexivity. }
  split.
  { unfold df_cont.
    rewrite (cont_groups_exact E _ no_country_table_integer_counts). cbn [bind].
    change (List.map _ _)
      with [ {| cont_year := Some 2017; cont_continent := Some "Asia";
                cont_visa_issued := Some (NInt 5) |} ].
    rewrite (lawful_one (arrange_cont E)) by apply (arrange_cont_perm E HE).
    reflexivity. }
  split.
  { unfold df_country.
    rewrite (country_groups_exact E _ no_country_table_integer_counts). cbn [bind].
    change (List.map _ _) with (@nil CountryRow).
    rewrite (lawful_nil (order_countries E)) by apply (order_countries_perm E HE).
    reflexivity. }
  unfold df_geo.
  rewrite (geo_groups_exact E _ no_country_table_integer_counts). cbn [bind].
  change (List.map _ _) with (@nil GeoRow).
  rewrite (lawful_nil (order_geo E)) by apply (order_geo_perm E HE).
  reflexivity.
Qed.

Lemma C9_null_country_rows_witness :
  Lawful reference_engine
  /\ df_country reference_engine no_country_table = Ok []
  /\ df_geo reference_engine no_country_table = Ok [].
Proof.
  split; [exact reference_engine_lawful|].
  exact (proj2 (proj2 (proj2 (proj2 (proj2 (proj2 (proj2 (proj2 (proj2
           (C9_null_country_rows reference_engine no_country_table
              reference_engine_lawful)))))))))).
Defined.

(** * Further properties of the script *)

(** ** The renamed column names *)

Lemma contains_char_app ch (s1 s2 : string) :
  contains_char ch (s1 +:+ s2)
  = (contains_char ch s1 || contains_char ch s2)%bool.
Proof.
  induction s1 as [|c s1 IH]; [reflexivity|].
  rewrite append_cons. cbn [contains_char]. now rewrite IH, orb_assoc.
Qed.

Lemma is_stripped_char_cases ch :
  is_stripped_char ch = true ->
  ch = " "%char \/ ch = "/"%char \/ ch = "."%char \/ ch = ","%char.
Proof.
  unfold is_stripped_char. rewrite !orb_true_iff, !Ascii.eqb_eq. tauto.
Qed.

Lemma rewrite_char_keep c :
  is_stripped_char c = false -> rewrite_char c = String c EmptyString.
Proof.
  unfold is_stripped_char, rewrite_char.
  destruct (Ascii.eqb c " "); [discriminate|]. cbn [orb].
  now intros ->.
Qed.

Lemma contains_rewrite_char c ch :
  is_stripped_char ch = true -> contains_char ch (rewrite_char c) = false.
Proof.
  intros Hch. destruct (is_stripped_char c) eqn:Hc.
  - apply is_stripped_char_cases in Hc.
    apply is_stripped_char_cases in Hch.
    destruct Hc as [->|[->|[->| ->]]]; destruct Hch as [->|[->|[->| ->]]];
      reflexivity.
  - rewrite (rewrite_char_keep _ Hc). cbn [contains_char]. rewrite orb_false_r.
    destruct (Ascii.eqb_spec c ch) as [->|]; [congruence | reflexivity].
Qed.

Lemma new_column_name_clean col ch :
  is_stripped_char ch = true -> contains_char ch (new_column_name col) = false.
Proof.
  intros Hch. rewrite new_column_name_chars.
  induction col as [|c col IH]; [reflexivity|].
  cbn [PyStr.concat_map]. rewrite contains_char_app, IH, orb_false_r.
  now apply contains_rewrite_char.
Qed.

Lemma new_column_name_fixed col :
  (forall ch, is_stripped_char ch = true -> contains_char ch col = false) ->
  new_column_name col = col.
Proof.
  rewrite new_column_name_chars.
  induction col as [|c col IH]; intros H; [reflexivity|].
  cbn [PyStr.concat_map].
  assert (Hc : is_stripped_char c = false).
  { destruct (is_stripped_char c) eqn:E; [|reflexivity].
    specialize (H c E). cbn [contains_char] in H.
    now rewrite Ascii.eqb_refl in H. }
  rewrite (rewrite_char_keep _ Hc), append_cons. f_equal.
  apply IH. intros ch Hch. specialize (H ch Hch).
  cbn [contains_char] in H. now apply orb_false_iff in H.
Qed.

(** X1: whatever the loaded header, a renamed column name contains no
    space, no slash, no period and no comma. *)
Theorem X1_renamed_name_has_none_of_the_four (col : string) (ch : ascii) :
  is_stripped_char ch = true ->
  contains_char ch (new_column_name col) = false.
Proof. apply new_column_name_clean. Qed.

Lemma X1_renamed_name_has_none_of_the_four_witness :
  contains_char " " (new_column_name "Number of issued, numerical.") = false.
Proof.
  apply (X1_renamed_name_has_none_of_the_four "Number of issued, numerical." " ").
  reflexivity.
Defined.

(** X2: renaming is idempotent, and the names it leaves as they are are
    exactly the names with none of the four characters. *)
Theorem X2_renaming_idempotent_fixed_points (col : string) :
  new_column_name (new_column_name col) = new_column_name col
  /\ (new_column_name col = col
      <-> forall ch, is_stripped_char ch = true -> contains_char ch col = false).
Proof.
  split.
  - apply new_column_name_fixed. intros ch. apply new_column_name_clean.
  - split.
    + intros E ch Hch. rewrite <- E. now apply new_column_name_clean.
    + apply new_column_name_fixed.
Qed.

Lemma length_append (s1 s2 : string) :
  String.length (s1 +:+ s2) = (String.length s1 + String.length s2)%nat.
Proof.
  induction s1 as [|c s1 IH]; [reflexivity|].
  rewrite append_cons. cbn [String.length]. now rewrite IH.
Qed.

Lemma length_rewrite_char c :
  (String.length (rewrite_char c) + (if is_deleted_char c then 1 else 0) = 1)%nat.
Proof.
  unfold rewrite_char, is_deleted_char.
  destruct (Ascii.eqb_spec c " ") as [->|_]; [reflexivity|].
  destruct (Ascii.eqb c "/" || Ascii.eqb c "." || Ascii.eqb c ",")%bool;
    reflexivity.
Qed.

(** X3: a renamed name is shorter than the loaded one by exactly the
    number of slashes, periods and commas in it; spaces keep their
    place as underscores. *)
Theorem X3_renamed_name_length (col : string) :
  (String.length (new_column_name col) + count_deleted col
   = String.length col)%nat.
Proof.
  rewrite new_column_name_chars.
  induction col as [|c col IH]; [reflexivity|].
  cbn [PyStr.concat_map count_deleted String.length].
  rewrite length_append. pose proof (length_rewrite_char c). lia.
Qed.

(** ** What the cleaner returns and when it fails *)
















(** ** More on the Country Corrector *)

Section CorrectorOrder.

Variable countries : list string.
Variable scorer : string -> string -> Z.

(** The running maximum is the first of the maximal elements. *)
Lemma max_by_score_first best l :
  (max_by_score best l = best /\ forall x, In x l -> snd x <= snd best)
  \/ exists l1 l2,
       l = l1 ++ max_by_score best l :: l2
       /\ snd best < snd (max_by_score best l)
       /\ (forall x, In x l1 -> snd x < snd (max_by_score best l))
       /\ (forall x, In x l2 -> snd x <= snd (max_by_score best l)).
Proof.
  revert best. induction l as [|y l IH]; intros best; cbn [max_by_score].
  - left. split; [reflexivity | contradiction].
  - destruct (Z.ltb_spec (snd best) (snd y)) as [Hlt|Hge].
    + destruct (IH y) as [(E & Hall) | (l1 & l2 & El & Hb & H1 & H2)].
      * right. exists [], l. rewrite E. cbn [app].
        repeat split; [exact Hlt | contradiction | exact Hall].
      * right. exists (y :: l1), l2. cbn [app].
        split; [now rewrite <- El|]. split; [lia|]. split; [|exact H2].
        intros x [<-|Hx]; [exact Hb | now apply H1].
    + destruct (IH best) as [(E & Hall) | (l1 & l2 & El & Hb & H1 & H2)].
      * left. split; [exact E|]. intros x [<-|Hx]; [lia | now apply Hall].
      * right. exists (y :: l1), l2. cbn [app].
        split; [now rewrite <- El|]. split; [exact Hb|]. split; [|exact H2].
        intros x [<-|Hx]; [lia | now apply H1].
Qed.

(** A split of the scored choices that reach the cutoff comes from a
    split of the choices. *)
Lemma extractWithoutOrder_split query cutoff choices l1' c s l2' :
  extractWithoutOrder scorer query choices cutoff = l1' ++ (c, s) :: l2' ->
  exists l1 l2,
    choices = l1 ++ c :: l2
    /\ s = scorer query c
    /\ extractWithoutOrder scorer query l1 cutoff = l1'
    /\ extractWithoutOrder scorer query l2 cutoff = l2'.
Proof.
  unfold extractWithoutOrder.
  revert l1'. induction choices as [|a choices IH]; intros l1' H.
  - destruct l1'; discriminate H.
  - cbn [List.map List.filter snd] in H.
    destruct (cutoff <=? scorer query a) eqn:Ea.
    + destruct l1' as [|p l1']; cbn [app] in H.
      * inversion H; subst. exists [], choices. repeat split; reflexivity.
      * inversion H as [[Ep Hrest]]. apply IH in Hrest as (l1 & l2 & -> & -> & E1 & E2).
        exists (a :: l1), l2. cbn [app List.map List.filter snd].
        rewrite Ea, E1. repeat split; try reflexivity. exact E2.
    + apply IH in H as (l1 & l2 & -> & -> & E1 & E2).
      exists (a :: l1), l2. cbn [app List.map List.filter snd].
      rewrite Ea. repeat split; try reflexivity; assumption.
Qed.

Lemma extractOne_first query choices c s :
  extractOne scorer query choices = Some (c, s) ->
  exists l1 l2,
    choices = l1 ++ c :: l2
    /\ s = scorer query c
    /\ (forall c', In c' l1 -> scorer query c' < s)
    /\ (forall c', In c' l2 -> scorer query c' <= s).
Proof.
  intros H. pose proof (extractOne_Some _ _ _ _ _ H) as (_ & _ & H0 & _).
  unfold extractOne in H.
  destruct (extractWithoutOrder scorer query choices 0) as [|x l] eqn:E;
    [discriminate|].
  inversion H as [Hmax]. clear H.
  assert (Hsplit : exists l1' l2',
            x :: l = l1' ++ (c, s) :: l2'
            /\ (forall p, In p l1' -> snd p < s)
            /\ (forall p, In p l2' -> snd p <= s)).
  { destruct (max_by_score_first x l) as [(Eb & Hall) | (l1 & l2 & El & Hb & H1 & H2)];
      rewrite Hmax in *; cbn [snd] in *.
    - exists [], l. subst x. cbn [app]. repeat split; [contradiction | exact Hall].
    - exists (x :: l1), l2. cbn [app]. split; [now rewrite <- El|].
      split; [|exact H2]. intros p [<-|Hp]; [exact Hb | now apply H1]. }
  destruct Hsplit as (l1' & l2' & Ex & H1 & H2).
  rewrite <- E in Ex.
  apply extractWithoutOrder_split in Ex as (l1 & l2 & -> & -> & E1 & E2).
  exists l1, l2. repeat split; try reflexivity.
  - intros c' Hc'.
    destruct (Z.le_gt_cases 0 (scorer query c')) as [Hge|Hneg]; [|lia].
    apply (H1 (c', scorer query c')). rewrite <- E1.
    apply in_extractWithoutOrder. auto.
  - intros c' Hc'.
    destruct (Z.le_gt_cases 0 (scorer query c')) as [Hge|Hneg]; [|lia].
    apply (H2 (c', scorer query c')). rewrite <- E2.
    apply in_extractWithoutOrder. auto.
Qed.

(** X6: when the corrector changes a name, the name it returns scores at
    least 85, strictly more than every reference name listed before it
    and at least as much as every name listed after it: on a tie the
    first listed name wins. *)
Theorem X6_first_best_match_wins (name out : string) :
  correct_country_name countries scorer name = Ok out ->
  out <> name ->
  exists before after,
    countries = before ++ out :: after
    /\ 85 <= scorer name out
    /\ (forall c, In c before -> scorer name c < scorer name out)
    /\ (forall c, In c after -> scorer name c <= scorer name out).
Proof.
  unfold correct_country_name, correct_country_name_at.
  destruct (extractOne scorer name countries) as [[best s]|] eqn:E;
    [|discriminate].
  intros H Hne. inversion H as [Hout]. clear H.
  destruct (Z.leb_spec 85 s) as [H85|]; [|congruence]. subst out.
  apply extractOne_first in E as (l1 & l2 & El & -> & H1 & H2).
  exists l1, l2. auto.
Qed.

(** The corrector leaves a reference name as it is when that name scores
    100 against itself and is the only one to do so. *)
Lemma correct_country_name_canonical (name : string) :
  In name countries ->
  (forall c, In c countries -> scorer name c <= 100) ->
  scorer name name = 100 ->
  (forall c, In c countries -> scorer name c = 100 -> c = name) ->
  correct_country_name countries scorer name = Ok name.
Proof.
  intros Hin Hmax Hself Huniq.
  unfold correct_country_name, correct_country_name_at.
  destruct (extractOne scorer name countries) as [[best s]|] eqn:E.
  - apply extractOne_Some in E as (Hb & -> & _ & Hbest).
    destruct (85 <=? scorer name best); [|reflexivity].
    f_equal. apply Huniq; [exact Hb|].
    pose proof (Hbest name Hin). pose proof (Hmax best Hb). lia.
  - pose proof (extractOne_None _ _ _ E name Hin). lia.
Qed.

Lemma correct_country_name_out (name out : string) :
  correct_country_name countries scorer name = Ok out ->
  out = name \/ In out countries.
Proof.
  unfold correct_country_name, correct_country_name_at.
  destruct (extractOne scorer name countries) as [[best s]|] eqn:E;
    [|discriminate].
  apply extractOne_Some in E as (Hb & _).
  intros H. inversion H. destruct (85 <=? s); [now right | now left].
Qed.

(** X7: with a scorer that gives at most 100, gives a reference name 100
    against itself and gives it to no other reference name, correcting
    a corrected name changes nothing. *)
Theorem X7_corrector_idempotent (name out : string) :
  (forall q c, In c countries -> scorer q c <= 100) ->
  (forall c, In c countries -> scorer c c = 100) ->
  (forall c c', In c countries -> In c' countries -> scorer c c' = 100 -> c' = c) ->
  correct_country_name countries scorer name = Ok out ->
  correct_country_name countries scorer out = Ok out.
Proof.
  intros Hmax Hself Huniq H.
  destruct (correct_country_name_out _ _ H) as [->|Hin]; [exact H|].
  apply correct_country_name_canonical; auto.
Qed.

End CorrectorOrder.

Lemma X6_first_best_match_wins_witness :
  exists before after,
    sample_countries = before ++ "Japan" :: after
    /\ 85 <= sample_scorer "japan" "Japan"
    /\ (forall c, In c before -> sample_scorer "japan" c < sample_scorer "japan" "Japan")
    /\ (forall c, In c after -> sample_scorer "japan" c <= sample_scorer "japan" "Japan").
Proof.
  apply (X6_first_best_match_wins sample_countries sample_scorer "japan" "Japan").
  - reflexivity.
  - discriminate.
Defined.

Lemma sample_scorer_exact c c' : sample_scorer c c' = 100 -> c' = c.
Proof.
  unfold sample_scorer.
  destruct (String.eqb_spec c c') as [->|_]; [reflexivity|].
  destruct (String.eqb (PyStr.lower c) (PyStr.lower c')); discriminate.
Qed.

Lemma X7_corrector_idempotent_witness :
  correct_country_name sample_countries sample_scorer "Japan" = Ok "Japan".
Proof.
  apply (X7_corrector_idempotent sample_countries sample_scorer "japan" "Japan").
  - intros q c _. apply sample_scorer_range.
  - intros c _. unfold sample_scorer. now rewrite String.eqb_refl.
  - intros c c' _ _. apply sample_scorer_exact.
  - reflexivity.
Defined.

(** ** The enrichment *)

Lemma Forall2_compose {A B C} (P : A -> B -> Prop) (Q : B -> C -> Prop) l1 l2 l3 :
  Forall2 P l1 l2 -> Forall2 Q l2 l3 ->
  Forall2 (fun a c => exists b, P a b /\ Q b c) l1 l3.
Proof.
  intros H. revert l3. induction H as [|a b l1 l2 Hab _ IH]; intros l3 H23.
  - inversion H23. constructor.
  - inversion H23 as [|b0 c l0 l3' Hbc H23']; subst.
    constructor; [eauto | now apply IH].
Qed.

Section EnrichmentFacts.

Variable countries : list string.
Variable scorer : string -> string -> Z.
Variable extractOne_of_None : result (option (string * Z)).
Variable country_name_to_country_alpha2 : string -> result string.
Variable country_alpha2_to_continent_code : string -> result string.
Variable convert_continent_code_to_continent_name : string -> result string.
Variable alpha2_of_None : result string.

Let correct := correct_country_name_udf countries scorer extractOne_of_None.
Let continent_of :=
  continent_udf country_name_to_country_alpha2 country_alpha2_to_continent_code
    convert_continent_code_to_continent_name alpha2_of_None.
Let enrichment :=
  enrich countries scorer extractOne_of_None country_name_to_country_alpha2
    country_alpha2_to_continent_code convert_continent_code_to_continent_name
    alpha2_of_None.

(** The mapper returns on every cell, NULL included. *)
Lemma continent_udf_returns (v : option string) :
  exists k, continent_of v = Ok k.
Proof.
  unfold continent_of, continent_udf. destruct v as [n|].
  - rewrite get_continent_name_chain. eauto.
  - destruct alpha2_of_None as [a2|]; cbn [bind try_except]; [|eauto].
    destruct (country_alpha2_to_continent_code a2) as [cc|];
      cbn [bind try_except]; [|eauto].
    destruct (convert_continent_code_to_continent_name cc);
      cbn [bind try_except]; eauto.
Qed.

Lemma withColumn_country_row (r r1 : CleanRecord) :
  (let* c := correct (clean_country r) in
   Ok {| clean_year := clean_year r; clean_country := c;
         clean_issued := clean_issued r |}) = Ok r1 ->
  clean_year r1 = clean_year r
  /\ clean_issued r1 = clean_issued r
  /\ correct (clean_country r) = Ok (clean_country r1).
Proof.
  intros H. apply bind_Ok_inv in H as (c & Hc & H).
  inversion H; subst r1. cbn. auto.
Qed.

Lemma withColumn_continent_row (r1 : CleanRecord) (r' : VisaRecord) :
  (let* k := continent_of (clean_country r1) in
   Ok {| year := clean_year r1; country := clean_country r1;
         number_of_issued_numerical := clean_issued r1; continent := k |}) = Ok r' ->
  year r' = clean_year r1
  /\ number_of_issued_numerical r' = clean_issued r1
  /\ country r' = clean_country r1
  /\ continent_of (country r') = Ok (continent r').
Proof.
  intros H. apply bind_Ok_inv in H as (k & Hk & H).
  inversion H; subst r'. cbn. auto.
Qed.

Lemma enrich_rows (t : list CleanRecord) (t' : list VisaRecord) :
  enrichment t = Ok t' -> Forall2 (enriched_from correct continent_of) t t'.
Proof.
  unfold enrichment, enrich. fold correct. fold continent_of.
  intros H. apply bind_Ok_inv in H as (t1 & H1 & H2).
  unfold withColumn_country in H1. unfold withColumn_continent in H2.
  apply map_rows_Ok in H1. apply map_rows_Ok in H2.
  eapply Forall2_impl; [exact (Forall2_compose _ _ _ _ _ H1 H2)|].
  intros r r' (r1 & Hr1 & Hr').
  apply withColumn_country_row in Hr1 as (Ey & Ei & Ec).
  apply withColumn_continent_row in Hr' as (Ey' & Ei' & Ec' & Ek).
  unfold enriched_from. rewrite Ec' in Ek. rewrite Ey', Ei', Ec'. auto.
Qed.

Lemma enrich_raises (t : list CleanRecord) (e : exn) :
  enrichment t = Raise e ->
  exists r, In r t /\ correct (clean_country r) = Raise e.
Proof.
  unfold enrichment, enrich. fold correct. fold continent_of.
  intros H.
  destruct (withColumn_country correct t) as [t1|e1] eqn:H1; cbn [bind] in H.
  - unfold withColumn_continent in H. apply map_rows_Raise in H as (r1 & _ & Hr1).
    destruct (continent_udf_returns (clean_country r1)) as (k & Hk).
    rewrite Hk in Hr1. discriminate Hr1.
  - inversion H; subst e1. unfold withColumn_country in H1.
    apply map_rows_Raise in H1 as (r & Hin & Hr). exists r. split; [exact Hin|].
    destruct (correct (clean_country r)) as [c|e0]; cbn [bind] in Hr;
      [discriminate Hr | now inversion Hr].
Qed.

Lemma enrich_returns (t : list CleanRecord) :
  (forall r, In r t -> exists c, correct (clean_country r) = Ok c) ->
  exists t', enrichment t = Ok t'.
Proof.
  unfold enrichment, enrich. fold correct. fold continent_of.
  intros Hall.
  destruct (map_rows_returns
              (fun r => let* c := correct (clean_country r) in
                        Ok {| clean_year := clean_year r; clean_country := c;
                              clean_issued := clean_issued r |}) t)
    as (t1 & H1).
  { intros r Hr. destruct (Hall r Hr) as (c & ->). cbn [bind]. eauto. }
  unfold withColumn_country. rewrite H1. cbn [bind].
  unfold withColumn_continent. apply map_rows_returns.
  intros r1 _. destruct (continent_udf_returns (clean_country r1)) as (k & ->).
  cbn [bind]. eauto.
Qed.

(** X8: the enrichment fails exactly when the corrector raises on the
    country of some row, and then with that exception; the continent
    mapper never makes it fail. When it returns, the rows are the input
    rows in the same order, each with its year and issued count
    untouched, its country replaced by what the corrector returns for
    it, and the continent the mapper returns for the corrected country. *)
Theorem X8_enrichment_outcome (t : list CleanRecord) :
  (forall t', enrichment t = Ok t' ->
     Forall2 (enriched_from correct continent_of) t t')
  /\ (forall e, enrichment t = Raise e ->
        exists r, In r t /\ correct (clean_country r) = Raise e)
  /\ ((forall r, In r t -> exists c, correct (clean_country r) = Ok c) ->
      exists t', enrichment t = Ok t').
Proof.
  split; [|split].
  - apply enrich_rows.
  - apply enrich_raises.
  - apply enrich_returns.
Qed.

Lemma correct_country_name_returns (name : string) :
  countries <> [] ->
  (forall c, In c countries -> 0 <= scorer name c) ->
  exists out, correct_country_name countries scorer name = Ok out.
Proof.
  intros Hne Hpos. unfold correct_country_name, correct_country_name_at.
  destruct (extractOne scorer name countries) as [[best s]|] eqn:E; [eauto|].
  destruct countries as [|c cs]; [congruence|].
  pose proof (extractOne_None _ _ _ E c (or_introl eq_refl)).
  pose proof (Hpos c (or_introl eq_refl)). lia.
Qed.

Lemma Forall2_with_In {A B} (P : A -> B -> Prop) (Q : A -> Prop) l l' :
  Forall2 P l l' -> (forall x, In x l -> Q x) ->
  Forall2 (fun x y => P x y /\ Q x) l l'.
Proof.
  induction 1 as [|x y l l' Hxy _ IH]; intros HQ; constructor.
  - split; [exact Hxy | apply HQ; now left].
  - apply IH. intros x' Hx'. apply HQ. now right.
Qed.

(** X9: on a table whose rows all have a country, with a non-empty
    reference list and scores that are never negative, the enrichment
    returns a table of the same length; row by row, year and issued
    count are kept, the country is the corrector's output for the old
    country (that country itself or a reference name), and the continent
    is the mapper's output for the corrected country, not for the old
    one. *)
Theorem X9_enrichment_of_named_rows (t : list CleanRecord) :
  countries <> [] ->
  (forall r, In r t ->
     exists name, clean_country r = Some name
                  /\ forall c, In c countries -> 0 <= scorer name c) ->
  exists t',
    enrichment t = Ok t'
    /\ List.length t' = List.length t
    /\ Forall2
         (fun r r' =>
            year r' = clean_year r
            /\ number_of_issued_numerical r' = clean_issued r
            /\ exists name out,
                 clean_country r = Some name
                 /\ correct_country_name countries scorer name = Ok out
                 /\ country r' = Some out
                 /\ (out = name \/ In out countries)
                 /\ get_continent_name country_name_to_country_alpha2
                      country_alpha2_to_continent_code
                      convert_continent_code_to_continent_name out
                    = Ok (continent r'))
         t t'.
Proof.
  intros Hne Hnamed.
  destruct (enrich_returns t) as (t' & Ht').
  { intros r Hr. destruct (Hnamed r Hr) as (name & En & Hpos).
    destruct (correct_country_name_returns name Hne Hpos) as (out & Hout).
    exists (Some out). unfold correct, correct_country_name_udf.
    now rewrite En, Hout. }
  exists t'. split; [exact Ht'|].
  pose proof (enrich_rows _ _ Ht') as Hrows.
  split; [symmetry; exact (Forall2_length _ _ _ Hrows)|].
  eapply Forall2_impl; [exact (Forall2_with_In _ _ _ _ Hrows Hnamed)|].
  intros r r' ((Ey & Ei & Ec & Ek) & name & En & Hpos).
  split; [exact Ey|]. split; [exact Ei|].
  unfold correct, correct_country_name_udf in Ec. rewrite En in Ec.
  apply bind_Ok_inv in Ec as (out & Hout & Eout).
  inversion Eout as [Ecountry].
  exists name, out. split; [exact En|]. split; [exact Hout|].
  split; [reflexivity|]. split; [exact (correct_country_name_out _ _ _ _ Hout)|].
  unfold continent_of, continent_udf in Ek. now rewrite <- Ecountry in Ek.
Qed.

End EnrichmentFacts.

Lemma X9_enrichment_of_named_rows_witness :
  exists t',
    enrich sample_countries sample_scorer (Raise TypeError)
      sample_alpha2 sample_continent_code sample_continent_name (Raise KeyError)
      sample_clean_table = Ok t'
    /\ List.length t' = List.length sample_clean_table
    /\ Forall2
         (fun r r' =>
            year r' = clean_year r
            /\ number_of_issued_numerical r' = clean_issued r
            /\ exists name out,
                 clean_country r = Some name
                 /\ correct_country_name sample_countries sample_scorer name = Ok out
                 /\ country r' = Some out
                 /\ (out = name \/ In out sample_countries)
                 /\ get_continent_name sample_alpha2 sample_continent_code
                      sample_continent_name out
                    = Ok (continent r'))
         sample_clean_table t'.
Proof.
  apply (X9_enrichment_of_named_rows sample_countries sample_scorer (Raise TypeError)
           sample_alpha2 sample_continent_code sample_continent_name (Raise KeyError)
           sample_clean_table).
  - discriminate.
  - intros r [<-|[<-|[<-|[]]]]; eexists; (split; [reflexivity|]);
      intros c _; apply sample_scorer_range.
Defined.

Example enrich_sample :
  enrich sample_countries sample_scorer (Raise TypeError)
    sample_alpha2 sample_continent_code sample_continent_name (Raise KeyError)
    sample_clean_table
  = Ok [ {| year := Some 2017; country := Some "Japan";
            number_of_issued_numerical := Some (NInt 7); continent := Some "Asia" |};
         {| year := Some 2017; country := Some "total";
            number_of_issued_numerical := Some (NInt 9); continent := None |};
         {| year := None; country := Some "France";
            number_of_issued_numerical := None; continent := Some "Europe" |} ].
Proof. reflexivity. Qed.


(** ** The groups of Q1 and Q3 *)

Lemma cont_group_rows t y k :
  cont_group t y (Some k) = rows_of_year_continent y k t.
Proof.
  unfold cont_group, rows_of_year_continent.
  induction t as [|r t IH]; [reflexivity|]. cbn [List.filter].
  destruct (SQL.holds (where_cont r)) eqn:Ew.
  - cbn [List.filter]. rewrite IH.
    destruct (decide (year r = y)) as [Ey|Ny];
      destruct (decide (continent r = Some k)) as [Ek|Nk].
    + rewrite !bool_decide_eq_true_2 by congruence. reflexivity.
    + rewrite (bool_decide_eq_false_2 _ Nk), andb_false_r.
      rewrite bool_decide_eq_false_2 by congruence. reflexivity.
    + rewrite (bool_decide_eq_false_2 _ Ny).
      rewrite bool_decide_eq_false_2 by congruence. reflexivity.
    + rewrite (bool_decide_eq_false_2 _ Ny).
      rewrite bool_decide_eq_false_2 by congruence. reflexivity.
  - rewrite IH.
    assert (Nk : continent r <> Some k).
    { intros Ek. assert (SQL.holds (where_cont r) = true)
        by (apply where_cont_holds; congruence). congruence. }
    now rewrite (bool_decide_eq_false_2 _ Nk), andb_false_r.
Qed.

Lemma geo_group_rows t y c :
  c <> "total" -> c <> "others" ->
  geo_group t y (Some c) = rows_of_year_country y c t.
Proof.
  intros N1 N2. unfold geo_group, rows_of_year_country.
  induction t as [|r t IH]; [reflexivity|]. cbn [List.filter].
  destruct (SQL.holds (where_geo r)) eqn:Ew.
  - cbn [List.filter]. rewrite IH.
    destruct (decide (year r = y)) as [Ey|Ny];
      destruct (decide (country r = Some c)) as [Ec|Nc].
    + rewrite !bool_decide_eq_true_2 by congruence. reflexivity.
    + rewrite (bool_decide_eq_false_2 _ Nc), andb_false_r.
      rewrite bool_decide_eq_false_2 by congruence. reflexivity.
    + rewrite (bool_decide_eq_false_2 _ Ny).
      rewrite bool_decide_eq_false_2 by congruence. reflexivity.
    + rewrite (bool_decide_eq_false_2 _ Ny).
      rewrite bool_decide_eq_false_2 by congruence. reflexivity.
  - rewrite IH.
    assert (Nc : country r <> Some c).
    { intros Ec. assert (SQL.holds (where_geo r) = true)
        by (apply where_geo_holds; eauto). congruence. }
    now rewrite (bool_decide_eq_false_2 _ Nc), andb_false_r.
Qed.

Lemma exact_sum_of_filter ansi (p : VisaRecord -> bool) t s :
  integer_counts t ->
  SQL.sum ansi (issued_of (List.filter p t)) = Ok s ->
  s = exact_sum (issued_of (List.filter p t)).
Proof.
  intros Ht Hs. destruct (integer_counts_filter p t Ht) as (Hint & Hb).
  rewrite (sum_exact _ _ Hint Hb) in Hs. now inversion Hs.
Qed.

(** X10: on a view of integer counts within the bigint range, on every
    engine, Q1 returns exactly one row for every pair of a year (NULL
    included) and a continent carried by some row of the view; no row
    of Q1 has a null continent; and the sum of a row is the arithmetic
    sum of the non-null issued counts of all the view's rows of that
    year and continent (NULL when they have none). *)
Theorem X10_continent_rows (E : Engine) (t : list VisaRecord) :
  Lawful E ->
  integer_counts t ->
  exists rows,
    df_cont E t = Ok rows
    /\ (forall row, In row rows ->
          exists k,
            cont_continent row = Some k
            /\ (exists r, In r t /\ year r = cont_year row /\ continent r = Some k)
            /\ cont_visa_issued row
               = exact_sum (issued_of (rows_of_year_continent (cont_year row) k t)))
    /\ NoDup (List.map (fun row => (cont_year row, cont_continent row)) rows)
    /\ (forall r k, In r t -> continent r = Some k ->
          In {| cont_year := year r; cont_continent := Some k;
                cont_visa_issued :=
                  exact_sum (issued_of (rows_of_year_continent (year r) k t)) |}
             rows).
Proof.
  intros HE Ht.
  destruct (queries_return E t Ht) as (rows & _ & _ & Hrows & _).
  exists rows. split; [exact Hrows|]. split; [|split].
  - intros row Hrow. apply (in_df_cont E t rows row HE Hrows) in Hrow as (Hk & Hsum).
    apply List.in_map_iff in Hk as (r & Ek & Hr).
    apply List.filter_In in Hr as (Hr & Hw).
    apply where_cont_holds in Hw.
    injection Ek as Ey Ec.
    destruct (continent r) as [k|] eqn:Ekr; [|congruence].
    exists k. split; [congruence|]. split; [eauto|].
    rewrite <- Ec, cont_group_rows in Hsum.
    exact (exact_sum_of_filter _ _ _ _ Ht Hsum).
  - apply df_cont_Ok in Hrows as (groups & Hg & ->).
    rewrite (Permutation_map (fun row => (cont_year row, cont_continent row))
               (arrange_cont_perm E HE groups)).
    rewrite (cont_groups_keys E t groups Hg). apply NoDup_distinct.
  - intros r k Hr Ek. apply (in_df_cont E t rows _ HE Hrows).
    cbn [cont_year cont_continent cont_visa_issued]. split.
    + apply List.in_map_iff. exists r. split; [now rewrite Ek|].
      apply List.filter_In. split; [exact Hr|].
      apply where_cont_holds. congruence.
    + rewrite cont_group_rows. unfold rows_of_year_continent.
      destruct (integer_counts_filter
                  (fun r0 => (bool_decide (year r0 = year r)
                              && bool_decide (continent r0 = Some k))%bool) t Ht)
        as (Hint & Hb).
      now apply sum_exact.
Qed.

Lemma X10_continent_rows_witness :
  Lawful reference_engine
  /\ integer_counts sample_table_a
  /\ exists rows,
       df_cont reference_engine sample_table_a = Ok rows
       /\ In {| cont_year := Some 2016; cont_continent := Some "Europe";
                cont_visa_issued := Some (NInt 5) |} rows
       /\ In {| cont_year := Some 2017; cont_continent := Some "Asia";
                cont_visa_issued := None |} rows.
Proof.
  split; [exact reference_engine_lawful|].
  split; [exact sample_table_a_integer_counts|].
  destruct (X10_continent_rows reference_engine sample_table_a
              reference_engine_lawful sample_table_a_integer_counts)
    as (rows & Hrows & _ & _ & Hin).
  exists rows. split; [exact Hrows|]. split.
  - exact (Hin {| year := Some 2016; country := Some "FR";
                  number_of_issued_numerical := Some (NInt 1);
                  continent := Some "Europe" |} "Europe"
             (or_introl eq_refl) eq_refl).
  - exact (Hin {| year := Some 2017; country := Some "JP";
                  number_of_issued_numerical := None;
                  continent := Some "Asia" |} "Asia"
             (or_intror (or_introl eq_refl)) eq_refl).
Defined.

(** X11: on a view of integer counts within the bigint range, on every
    engine, Q3 returns exactly one row for every pair of a year (NULL
    included) and a country other than the two sentinels carried by some
    row of the view; the sum of a row is the arithmetic sum of the
    non-null issued counts of all the view's rows of that year and
    country (NULL when they have none); and the rows come sorted by
    ascending year, a NULL year first. *)
Theorem X11_geographic_rows (E : Engine) (t : list VisaRecord) :
  Lawful E ->
  integer_counts t ->
  exists rows,
    df_geo E t = Ok rows
    /\ (forall row, In row rows ->
          exists c,
            geo_country row = Some c /\ c <> "total" /\ c <> "others"
            /\ (exists r, In r t /\ year r = geo_year row /\ country r = Some c)
            /\ geo_visa_issued row
               = exact_sum (issued_of (rows_of_year_country (geo_year row) c t)))
    /\ NoDup (List.map (fun row => (geo_year row, geo_country row)) rows)
    /\ (forall r c, In r t -> country r = Some c -> c <> "total" -> c <> "others" ->
          In {| geo_year := year r; geo_country := Some c;
                geo_visa_issued :=
                  exact_sum (issued_of (rows_of_year_country (year r) c t)) |}
             rows)
    /\ StronglySorted by_year_asc rows.
Proof.
  intros HE Ht.
  destruct (queries_return E t Ht) as (_ & _ & rows & _ & _ & Hrows).
  exists rows. split; [exact Hrows|]. split; [|split; [|split]].
  - intros row Hrow. apply (in_df_geo E t rows row HE Hrows) in Hrow as (Hk & Hsum).
    apply List.in_map_iff in Hk as (r & Ek & Hr).
    apply List.filter_In in Hr as (Hr & Hw).
    apply where_geo_holds in Hw as (c & Ec & N1 & N2).
    injection Ek as Ey Ec'.
    exists c. split; [congruence|]. split; [exact N1|]. split; [exact N2|].
    split; [eauto|].
    rewrite <- Ec', Ec, geo_group_rows in Hsum by assumption.
    exact (exact_sum_of_filter _ _ _ _ Ht Hsum).
  - apply df_geo_Ok in Hrows as (groups & Hg & ->).
    rewrite (Permutation_map (fun row => (geo_year row, geo_country row))
               (order_geo_perm E HE groups)).
    rewrite (geo_groups_keys E t groups Hg). apply NoDup_distinct.
  - intros r c Hr Ec N1 N2. apply (in_df_geo E t rows _ HE Hrows).
    cbn [geo_year geo_country geo_visa_issued]. split.
    + apply List.in_map_iff. exists r. split; [now rewrite Ec|].
      apply List.filter_In. split; [exact Hr|].
      apply where_geo_holds. eauto.
    + rewrite geo_group_rows by assumption. unfold rows_of_year_country.
      destruct (integer_counts_filter
                  (fun r0 => (bool_decide (year r0 = year r)
                              && bool_decide (country r0 = Some c))%bool) t Ht)
        as (Hint & Hb).
      now apply sum_exact.
  - apply df_geo_Ok in Hrows as (groups & _ & ->).
    apply (order_geo_sorted E HE).
Qed.

Lemma X11_geographic_rows_witness :
  Lawful reference_engine
  /\ integer_counts sample_table_a
  /\ exists rows,
       df_geo reference_engine sample_table_a = Ok rows
       /\ In {| geo_year := Some 2016; geo_country := Some "FR";
                geo_visa_issued := Some (NInt 5) |} rows.
Proof.
  split; [exact reference_engine_lawful|].
  split; [exact sample_table_a_integer_counts|].
  destruct (X11_geographic_rows reference_engine sample_table_a
              reference_engine_lawful sample_table_a_integer_counts)
    as (rows & Hrows & _ & _ & Hin & _).
  exists rows. split; [exact Hrows|].
  refine (Hin {| year := Some 2016; country := Some "FR";
                 number_of_issued_numerical := Some (NInt 1);
                 continent := Some "Europe" |} "FR"
            (or_introl eq_refl) eq_refl _ _); discriminate.
Defined.

(** X12: the two country queries agree: on every engine, when both
    return, every row of Q2 is, with the year 2017 put in front, a row
    of Q3 with the same sum. *)
Theorem X12_top_countries_are_geographic_rows
    (E : Engine) (t : list VisaRecord)
    (top : list CountryRow) (geo : list GeoRow) (row : CountryRow) :
  Lawful E ->
  df_country E t = Ok top ->
  df_geo E t = Ok geo ->
  In row top ->
  In {| geo_year := Some 2017;
        geo_country := ctry_country row;
        geo_visa_issued := ctry_visa_issued row |}
     geo.
Proof.
  intros HE Htop Hgeo Hrow.
  destruct (in_df_country E t top row HE Htop Hrow)
    as (c & r & Ec & N1 & N2 & Hr & Ey & Ek & Hsum).
  apply (in_df_geo E t geo _ HE Hgeo).
  cbn [geo_year geo_country geo_visa_issued]. split.
  - apply List.in_map_iff. exists r. split; [now rewrite Ey, Ek, Ec|].
    apply List.filter_In. split; [exact Hr|].
    apply where_geo_holds. eauto.
  - rewrite Ec, geo_group_rows by assumption. exact Hsum.
Qed.

Lemma X12_top_countries_are_geographic_rows_witness :
  Lawful reference_engine
  /\ In {| geo_year := Some 2017; geo_country := Some "US";
           geo_visa_issued := Some (NInt 300) |}
        [ {| geo_year := Some 2017; geo_country := Some "FR";
             geo_visa_issued := Some (NInt 100) |};
          {| geo_year := Some 2017; geo_country := Some "US";
             geo_visa_issued := Some (NInt 300) |} ].
Proof.
  split; [exact reference_engine_lawful|].
  apply (X12_top_countries_are_geographic_rows reference_engine scenario_q2
           [ {| ctry_country := Some "US"; ctry_visa_issued := Some (NInt 300) |};
             {| ctry_country := Some "FR"; ctry_visa_issued := Some (NInt 100) |} ]
           _
           {| ctry_country := Some "US"; ctry_visa_issued := Some (NInt 300) |}).
  - exact reference_engine_lawful.
  - reflexivity.
  - reflexivity.
  - left. reflexivity.
Defined.

(** ** Grouping partitions the rows *)

Lemma sumZ_app l1 l2 : sumZ (l1 ++ l2) = sumZ l1 + sumZ l2.
Proof.
  unfold sumZ. induction l1 as [|x l1 IH]; cbn [app List.fold_right]; lia.
Qed.

Lemma sumZ_map_add {A} (f g : A -> Z) l :
  sumZ (List.map (fun x => f x + g x) l)
  = sumZ (List.map f l) + sumZ (List.map g l).
Proof.
  unfold sumZ. induction l as [|x l IH]; cbn [List.map List.fold_right]; lia.
Qed.

Lemma sumZ_map_zero {A} (l : list A) : sumZ (List.map (fun _ => 0) l) = 0.
Proof.
  unfold sumZ. induction l as [|x l IH]; cbn [List.map List.fold_right]; lia.
Qed.

Lemma sumZ_Permutation l l' : Permutation l l' -> sumZ l = sumZ l'.
Proof.
  unfold sumZ.
  induction 1 as [|x l l' _ IH|x y l|l l' l'' _ IH1 _ IH2];
    cbn [List.fold_right]; lia.
Qed.

Section Partition.

Context {R K : Type} `{EqDecision K}.
Variable key : R -> K.
Variable w : R -> Z.

Lemma sumZ_indicator_absent (a : K) (x : Z) ks :
  ~ In a ks ->
  sumZ (List.map (fun k => if bool_decide (a = k) then x else 0) ks) = 0.
Proof.
  unfold sumZ. induction ks as [|k ks IH]; intros Hn; [reflexivity|].
  cbn [List.map List.fold_right].
  rewrite bool_decide_eq_false_2 by (intros ->; apply Hn; now left).
  rewrite IH; [lia|]. intros Hin. apply Hn. now right.
Qed.

Lemma sumZ_indicator (a : K) (x : Z) ks :
  List.NoDup ks -> In a ks ->
  sumZ (List.map (fun k => if bool_decide (a = k) then x else 0) ks) = x.
Proof.
  induction 1 as [|k ks Hk Hnd IH]; intros Hin; [contradiction|].
  change (sumZ (List.map (fun k0 => if bool_decide (a = k0) then x else 0) (k :: ks)))
    with ((if bool_decide (a = k) then x else 0)
          + sumZ (List.map (fun k0 => if bool_decide (a = k0) then x else 0) ks)).
  destruct (decide (a = k)) as [->|Hne].
  - rewrite bool_decide_eq_true_2 by reflexivity.
    rewrite sumZ_indicator_absent by exact Hk. lia.
  - rewrite bool_decide_eq_false_2 by exact Hne.
    destruct Hin as [->|Hin]; [congruence|]. rewrite IH by exact Hin. lia.
Qed.

(** Summing a weight group by group gives its sum over all the rows,
    for any duplicate-free list of keys that covers the rows. *)
Lemma partition_sum ks rs :
  List.NoDup ks ->
  (forall r, In r rs -> In (key r) ks) ->
  sumZ (List.map
          (fun k => sumZ (List.map w (List.filter (fun r => bool_decide (key r = k)) rs)))
          ks)
  = sumZ (List.map w rs).
Proof.
  intros Hnd. induction rs as [|r rs IH]; intros Hcover.
  - cbn [List.filter List.map]. apply sumZ_map_zero.
  - rewrite (List.map_ext _
       (fun k => (if bool_decide (key r = k) then w r else 0)
                 + sumZ (List.map w (List.filter (fun r0 => bool_decide (key r0 = k)) rs)))).
    + rewrite sumZ_map_add, IH by (intros r' Hr'; apply Hcover; now right).
      rewrite sumZ_indicator by (try exact Hnd; apply Hcover; now left).
      reflexivity.
    + intros k. cbn [List.filter].
      destruct (bool_decide (key r = k)); reflexivity.
Qed.

Lemma group_by_partition rs :
  sumZ (List.map (fun g => sumZ (List.map w (snd g))) (SQL.group_by key rs))
  = sumZ (List.map w rs).
Proof.
  unfold SQL.group_by. rewrite List.map_map. cbn [snd].
  apply partition_sum.
  - apply NoDup_ListNoDup, NoDup_distinct.
  - intros r Hr. apply (proj2 (in_distinct _ _)). now apply List.in_map.
Qed.

End Partition.

Lemma sum_non_null_sumZ l : sum_non_null l = sumZ (List.map value_or_zero l).
Proof.
  unfold sumZ.
  induction l as [|[[v|d]|] l IH];
    cbn [sum_non_null List.map List.fold_right value_or_zero]; lia.
Qed.

Lemma sum_non_null_no_value l : has_value l = false -> sum_non_null l = 0.
Proof.
  induction l as [|[x|] l IH]; [reflexivity| |].
  - rewrite has_value_cons. discriminate.
  - rewrite has_value_cons. cbn [sum_non_null orb]. exact IH.
Qed.

Lemma value_or_zero_exact_sum l : value_or_zero (exact_sum l) = sum_non_null l.
Proof.
  unfold exact_sum. destruct (has_value l) eqn:E; [reflexivity|].
  cbn [value_or_zero]. symmetry. now apply sum_non_null_no_value.
Qed.

(** The exact sums of the groups add up to the sum over the grouped
    rows. *)
Lemma group_sums_total {K} `{EqDecision K} (key : VisaRecord -> K) rs :
  sum_non_null
    (List.map (fun k => exact_sum (issued_of (part key rs k)))
       (SQL.distinct (List.map key rs)))
  = sum_non_null (issued_of rs).
Proof.
  unfold issued_of, part. rewrite !sum_non_null_sumZ, !List.map_map.
  rewrite <- (partition_sum key (fun r => value_or_zero (number_of_issued_numerical r))
                (SQL.distinct (List.map key rs)) rs).
  - f_equal. apply List.map_ext. intros k.
    now rewrite value_or_zero_exact_sum, sum_non_null_sumZ, List.map_map.
  - apply NoDup_ListNoDup, NoDup_distinct.
  - intros r Hr. apply (proj2 (in_distinct _ _)). now apply List.in_map.
Qed.

Lemma filter_Permutation_list {A} (p : A -> bool) (l l' : list A) :
  Permutation l l' -> Permutation (List.filter p l) (List.filter p l').
Proof.
  induction 1 as [|x l l' _ IH|x y l|l l' l'' _ IH1 _ IH2]; cbn [List.filter].
  - reflexivity.
  - destruct (p x); [now constructor | exact IH].
  - destruct (p x), (p y); try reflexivity. apply perm_swap.
  - now transitivity (List.filter p l').
Qed.

Lemma sum_non_null_Permutation l l' :
  Permutation l l' -> sum_non_null l = sum_non_null l'.
Proof.
  induction 1 as [|x l l' _ IH|x y l|l l' l'' _ IH1 _ IH2]; cbn [sum_non_null].
  - reflexivity.
  - destruct x as [[v|d]|]; now rewrite IH.
  - destruct x as [[v|d]|], y as [[w|d']|]; lia.
  - congruence.
Qed.

Lemma has_value_Permutation l l' :
  Permutation l l' -> has_value l = has_value l'.
Proof.
  induction 1 as [|x l l' _ IH|x y l|l l' l'' _ IH1 _ IH2];
    rewrite ?has_value_cons.
  - reflexivity.
  - now rewrite IH.
  - destruct x, y; reflexivity.
  - congruence.
Qed.

Lemma exact_sum_Permutation l l' : Permutation l l' -> exact_sum l = exact_sum l'.
Proof.
  intros H. unfold exact_sum.
  now rewrite (has_value_Permutation _ _ H), (sum_non_null_Permutation _ _ H).
Qed.

Lemma abs_total_Permutation l l' : Permutation l l' -> abs_total l = abs_total l'.
Proof.
  induction 1 as [|x l l' _ IH|x y l|l l' l'' _ IH1 _ IH2]; cbn [abs_total].
  - reflexivity.
  - destruct x as [[v|d]|]; now rewrite IH.
  - destruct x as [[v|d]|], y as [[w|d']|]; lia.
  - congruence.
Qed.

Lemma integer_counts_Permutation t t' :
  Permutation t t' -> integer_counts t -> integer_counts t'.
Proof.
  intros H (Hint & Hb).
  assert (Hp : Permutation (issued_of t) (issued_of t'))
    by now apply Permutation_map.
  split.
  - intros x Hx. apply Hint. eapply Permutation_in; [symmetry; exact Hp | exact Hx].
  - now rewrite <- (abs_total_Permutation _ _ Hp).
Qed.

(** The rows of the exact sums of the groups are the same, up to their
    order, whatever the order of the grouped rows. *)
Lemma exact_rows_Permutation {K Row} `{EqDecision K}
    (key : VisaRecord -> K) (mk : K -> option number -> Row) (key_of : Row -> K)
    rs rs' :
  (forall k s, key_of (mk k s) = k) ->
  Permutation rs rs' ->
  Permutation
    (List.map (fun k => mk k (exact_sum (issued_of (part key rs k))))
       (SQL.distinct (List.map key rs)))
    (List.map (fun k => mk k (exact_sum (issued_of (part key rs' k))))
       (SQL.distinct (List.map key rs'))).
Proof.
  intros Hkey Hperm.
  assert (Hnd : forall l,
            List.NoDup (List.map (fun k => mk k (exact_sum (issued_of (part key l k))))
                          (SQL.distinct (List.map key l)))).
  { intros l. apply (List.NoDup_map_inv key_of). rewrite List.map_map.
    rewrite (List.map_ext _ (fun k => k)) by (intros k; apply Hkey).
    rewrite List.map_id. apply NoDup_ListNoDup, NoDup_distinct. }
  assert (Hin : forall l l' row,
            Permutation l l' ->
            In row (List.map (fun k => mk k (exact_sum (issued_of (part key l k))))
                      (SQL.distinct (List.map key l))) ->
            In row (List.map (fun k => mk k (exact_sum (issued_of (part key l' k))))
                      (SQL.distinct (List.map key l')))).
  { intros l l' row Hl Hrow. apply List.in_map_iff in Hrow as (k & <- & Hk).
    apply List.in_map_iff. exists k. split.
    - f_equal. apply exact_sum_Permutation. unfold issued_of, part.
      apply Permutation_map, filter_Permutation_list. now symmetry.
    - apply (proj2 (in_distinct _ _)). apply (proj1 (in_distinct _ _)) in Hk.
      eapply Permutation_in; [|exact Hk]. now apply Permutation_map. }
  apply Permutation.NoDup_Permutation; try apply Hnd.
  intros row. split; apply Hin; [exact Hperm | now symmetry].
Qed.

Lemma cont_rows_as_parts t :
  List.map
    (fun k => mkContRow (fst k) (snd k)
                (exact_sum (issued_of (cont_group t (fst k) (snd k)))))
    (SQL.distinct
       (List.map (fun r => (year r, continent r))
          (List.filter (fun r => SQL.holds (where_cont r)) t)))
  = List.map
      (fun k => mkContRow (fst k) (snd k)
                  (exact_sum
                     (issued_of
                        (part (fun r => (year r, continent r))
                           (List.filter (fun r => SQL.holds (where_cont r)) t) k))))
      (SQL.distinct
         (List.map (fun r => (year r, continent r))
            (List.filter (fun r => SQL.holds (where_cont r)) t))).
Proof. apply List.map_ext. now intros [y k]. Qed.

Lemma geo_rows_as_parts t :
  List.map
    (fun k => mkGeoRow (fst k) (snd k)
                (exact_sum (issued_of (geo_group t (fst k) (snd k)))))
    (SQL.distinct
       (List.map (fun r => (year r, country r))
          (List.filter (fun r => SQL.holds (where_geo r)) t)))
  = List.map
      (fun k => mkGeoRow (fst k) (snd k)
                  (exact_sum
                     (issued_of
                        (part (fun r => (year r, country r))
                           (List.filter (fun r => SQL.holds (where_geo r)) t) k))))
      (SQL.distinct
         (List.map (fun r => (year r, country r))
            (List.filter (fun r => SQL.holds (where_geo r)) t))).
Proof. apply List.map_ext. now intros [y k]. Qed.

(** X13: on a view of integer counts within the bigint range, on every
    engine, Q1 and Q3 lose nothing and count nothing twice: the sums of
    the rows of Q1 (a NULL sum counting for nothing) add up to the total
    of the non-null issued counts of the view's rows that have a
    continent, and the sums of the rows of Q3 to the total over the rows
    whose country is neither null nor a sentinel. *)
Theorem X13_group_sums_add_up (E : Engine) (t : list VisaRecord) :
  Lawful E ->
  integer_counts t ->
  exists by_continent by_country,
    df_cont E t = Ok by_continent
    /\ df_geo E t = Ok by_country
    /\ sum_non_null (List.map cont_visa_issued by_continent)
       = sum_non_null (issued_of (List.filter (fun r => SQL.holds (where_cont r)) t))
    /\ sum_non_null (List.map geo_visa_issued by_country)
       = sum_non_null (issued_of (List.filter (fun r => SQL.holds (where_geo r)) t)).
Proof.
  intros HE Ht. unfold df_cont, df_geo.
  rewrite (cont_groups_exact E t Ht), (geo_groups_exact E t Ht). cbn [bind].
  do 2 eexists. split; [reflexivity|]. split; [reflexivity|]. split.
  - rewrite (sum_non_null_Permutation _ _
               (Permutation_map cont_visa_issued (arrange_cont_perm E HE _))).
    rewrite cont_rows_as_parts, List.map_map. cbn [cont_visa_issued].
    apply (group_sums_total (fun r => (year r, continent r))).
  - rewrite (sum_non_null_Permutation _ _
               (Permutation_map geo_visa_issued (order_geo_perm E HE _))).
    rewrite geo_rows_as_parts, List.map_map. cbn [geo_visa_issued].
    apply (group_sums_total (fun r => (year r, country r))).
Qed.

Lemma X13_group_sums_add_up_witness :
  Lawful reference_engine
  /\ integer_counts sample_table_a
  /\ exists by_continent by_country,
       df_cont reference_engine sample_table_a = Ok by_continent
       /\ df_geo reference_engine sample_table_a = Ok by_country
       /\ sum_non_null (List.map cont_visa_issued by_continent) = 5
       /\ sum_non_null (List.map geo_visa_issued by_country) = 5.
Proof.
  split; [exact reference_engine_lawful|].
  split; [exact sample_table_a_integer_counts|].
  exact (X13_group_sums_add_up reference_engine sample_table_a
           reference_engine_lawful sample_table_a_integer_counts).
Defined.

(** X14: on a view of integer counts within the bigint range, the
    groups and sums of the three queries depend neither on the order in
    which the rows of the view are read nor on the engine: two engines,
    one reading the view in another order, return the same rows up to
    their order for Q1, for Q3, and for Q2 before its ORDER BY and
    LIMIT. *)
Theorem X14_groups_independent_of_row_order
    (E E' : Engine) (t t' : list VisaRecord) :
  Lawful E ->
  Lawful E' ->
  integer_counts t ->
  Permutation t t' ->
  (exists r r', df_cont E t = Ok r /\ df_cont E' t' = Ok r' /\ Permutation r r')
  /\ (exists r r', df_geo E t = Ok r /\ df_geo E' t' = Ok r' /\ Permutation r r')
  /\ (exists r r',
        country_groups E t = Ok r /\ country_groups E' t' = Ok r'
        /\ Permutation r r').
Proof.
  intros HE HE' Ht Hperm.
  pose proof (integer_counts_Permutation _ _ Hperm Ht) as Ht'.
  split; [|split].
  - unfold df_cont.
    rewrite (cont_groups_exact E t Ht), (cont_groups_exact E' t' Ht'). cbn [bind].
    do 2 eexists. split; [reflexivity|]. split; [reflexivity|].
    rewrite (arrange_cont_perm E HE), (arrange_cont_perm E' HE').
    rewrite !cont_rows_as_parts.
    apply (exact_rows_Permutation (fun r => (year r, continent r))
             (fun k s => mkContRow (fst k) (snd k) s)
             (fun row => (cont_year row, cont_continent row))).
    + now intros [y k] s.
    + now apply filter_Permutation_list.
  - unfold df_geo.
    rewrite (geo_groups_exact E t Ht), (geo_groups_exact E' t' Ht'). cbn [bind].
    do 2 eexists. split; [reflexivity|]. split; [reflexivity|].
    rewrite (order_geo_perm E HE), (order_geo_perm E' HE').
    rewrite !geo_rows_as_parts.
    apply (exact_rows_Permutation (fun r => (year r, country r))
             (fun k s => mkGeoRow (fst k) (snd k) s)
             (fun row => (geo_year row, geo_country row))).
    + now intros [y k] s.
    + now apply filter_Permutation_list.
  - rewrite (country_groups_exact E t Ht), (country_groups_exact E' t' Ht').
    do 2 eexists. split; [reflexivity|]. split; [reflexivity|].
    apply (exact_rows_Permutation country mkCountryRow ctry_country).
    + reflexivity.
    + now apply filter_Permutation_list.
Qed.

Lemma X14_groups_independent_of_row_order_witness :
  Lawful reference_engine
  /\ Lawful reversing_engine
  /\ integer_counts sample_table_a
  /\ Permutation sample_table_a sample_table_b
  /\ exists r r',
       df_cont reference_engine sample_table_a = Ok r
       /\ df_cont reversing_engine sample_table_b = Ok r'
       /\ Permutation r r'.
Proof.
  assert (Hp : Permutation sample_table_a sample_table_b) by apply perm_swap.
  split; [exact reference_engine_lawful|].
  split; [exact reversing_engine_lawful|].
  split; [exact sample_table_a_integer_counts|].
  split; [exact Hp|].
  exact (proj1 (X14_groups_independent_of_row_order
                  reference_engine reversing_engine sample_table_a sample_table_b
                  reference_engine_lawful reversing_engine_lawful
                  sample_table_a_integer_counts Hp)).
Defined.

(** ** The printed counts *)

Lemma sumZ_cons x l : sumZ (x :: l) = x + sumZ l.
Proof. reflexivity. Qed.

Lemma sumZ_nonneg (l : list Z) : Forall (fun x => 0 <= x) l -> 0 <= sumZ l.
Proof.
  induction 1 as [|x l Hx _ IH]; [reflexivity|]. rewrite sumZ_cons. lia.
Qed.

Lemma sumZ_firstn_le n (l : list Z) :
  Forall (fun x => 0 <= x) l -> sumZ (List.firstn n l) <= sumZ l.
Proof.
  revert n. induction l as [|x l IH]; intros n H.
  - now rewrite List.firstn_nil.
  - apply Forall_cons_1 in H as (Hx & Hl). destruct n as [|n].
    + rewrite List.firstn_O, sumZ_cons. pose proof (sumZ_nonneg l Hl).
      change (sumZ []) with 0. lia.
    + rewrite List.firstn_cons, !sumZ_cons. specialize (IH n Hl). lia.
Qed.

Section Counts.

Context {R : Type}.
Variable E : Engine.
Hypothesis E_lawful : Lawful E.
Variable key : R -> option string.
Variable n : nat.

Lemma groupBy_count_keys rs :
  List.map fst (groupBy_count key rs) = SQL.distinct (List.map key rs).
Proof.
  unfold groupBy_count. rewrite List.map_map. cbn [fst].
  exact (group_by_keys key rs).
Qed.

Lemma groupBy_count_total rs :
  sumZ (List.map snd (groupBy_count key rs)) = Z.of_nat (List.length rs).
Proof.
  unfold groupBy_count. rewrite List.map_map. cbn [snd].
  assert (Hone : forall l : list R, sumZ (List.map (fun _ => 1) l) = Z.of_nat (List.length l)).
  { unfold sumZ. induction l as [|x l IH]; [reflexivity|].
    cbn [List.map List.fold_right List.length]. rewrite IH. lia. }
  rewrite <- (Hone rs), <- (group_by_partition key (fun _ => 1) rs).
  f_equal. apply List.map_ext. intros g. now rewrite Hone.
Qed.

Lemma in_groupBy_count rs k c :
  In (k, c) (groupBy_count key rs)
  <-> In k (List.map key rs)
      /\ c = Z.of_nat (List.length (List.filter (fun r => bool_decide (key r = k)) rs)).
Proof.
  unfold groupBy_count. rewrite List.in_map_iff. split.
  - intros ([k' g] & Eq & Hin). cbn [fst snd] in Eq. inversion Eq; subst k' c.
    apply in_group_by in Hin as (Hk & ->). auto.
  - intros (Hk & ->). eexists (k, _). split; [reflexivity|].
    apply in_group_by. auto.
Qed.

Lemma count_positive rs r :
  In r rs ->
  1 <= Z.of_nat (List.length (List.filter (fun r0 => bool_decide (key r0 = key r)) rs)).
Proof.
  intros Hr.
  assert (Hin : In r (List.filter (fun r0 => bool_decide (key r0 = key r)) rs)).
  { apply List.filter_In. split; [exact Hr|]. now apply bool_decide_eq_true_2. }
  destruct (List.filter _ rs); [contradiction|]. cbn [List.length]. lia.
Qed.

(** What a grouped, counted, sorted and shown table always satisfies. *)
Lemma counts_facts rs :
  let shown := show n (order_counts E (groupBy_count key rs)) in
  (forall k c, In (k, c) shown ->
     1 <= c
     /\ c = Z.of_nat (List.length (List.filter (fun r => bool_decide (key r = k)) rs)))
  /\ NoDup (List.map fst shown)
  /\ StronglySorted by_count_desc shown
  /\ (List.length shown <= n)%nat
  /\ (forall r, In r rs ->
        let c := Z.of_nat
                   (List.length (List.filter (fun r0 => bool_decide (key r0 = key r)) rs)) in
        In (key r, c) shown
        \/ (List.length shown = n /\ forall row, In row shown -> c <= snd row))
  /\ sumZ (List.map snd shown) <= Z.of_nat (List.length rs)
  /\ ((List.length (SQL.distinct (List.map key rs)) <= n)%nat ->
      sumZ (List.map snd shown) = Z.of_nat (List.length rs)).
Proof.
  intros shown. unfold show in shown.
  set (counted := groupBy_count key rs) in *.
  pose proof (order_counts_perm E E_lawful counted) as Hperm.
  destruct (StronglySorted_limit by_count_desc n _
              (order_counts_sorted E E_lawful counted)) as (Hsorted & Hcut).
  fold (SQL.limit n (order_counts E counted)) in shown.
  assert (Hall : forall row, In row (order_counts E counted) -> 1 <= snd row).
  { intros [k c] Hin. apply (Permutation_in _ Hperm) in Hin.
    apply in_groupBy_count in Hin as (Hk & ->).
    apply List.in_map_iff in Hk as (r & <- & Hr). now apply count_positive. }
  split; [|split; [|split; [|split; [|split; [|split]]]]].
  - intros k c Hin. apply in_limit in Hin.
    pose proof (Hall _ Hin) as H1.
    apply (Permutation_in _ Hperm) in Hin.
    apply in_groupBy_count in Hin as (_ & Hc). auto.
  - unfold shown, SQL.limit. rewrite <- List.firstn_map.
    eapply (NoDup_app (take n _) (drop n _)).
    rewrite take_drop. rewrite (Permutation_map fst Hperm).
    unfold counted. rewrite groupBy_count_keys. apply NoDup_distinct.
  - exact Hsorted.
  - unfold shown, SQL.limit. rewrite List.length_firstn. lia.
  - intros r Hr c.
    assert (Hin : In (key r, c) (order_counts E counted)).
    { apply (Permutation_in _ (Permutation_sym Hperm)).
      apply in_groupBy_count. split; [now apply List.in_map | reflexivity]. }
    rewrite <- (List.firstn_skipn n (order_counts E counted)) in Hin.
    apply List.in_app_or in Hin as [Hkept | Hcutoff].
    + left. exact Hkept.
    + right. split.
      * now apply (skipn_in_firstn_full _ _ (key r, c)).
      * intros row Hrow. specialize (Hcut row (key r, c) Hrow Hcutoff).
        unfold by_count_desc in Hcut. cbn [snd] in Hcut.
        now apply Z.leb_le in Hcut.
  - rewrite <- (groupBy_count_total rs). fold counted.
    rewrite <- (sumZ_Permutation _ _ (Permutation_map snd Hperm)).
    unfold shown, SQL.limit. rewrite <- List.firstn_map.
    apply sumZ_firstn_le. apply List.Forall_forall. intros x Hx.
    apply List.in_map_iff in Hx as (row & <- & Hrow).
    specialize (Hall row Hrow). lia.
  - intros Hfew. rewrite <- (groupBy_count_total rs). fold counted.
    rewrite <- (sumZ_Permutation _ _ (Permutation_map snd Hperm)).
    unfold shown, SQL.limit. rewrite List.firstn_all2; [reflexivity|].
    rewrite (Permutation_length Hperm). unfold counted.
    rewrite <- (List.length_map fst), groupBy_count_keys. exact Hfew.
Qed.

End Counts.

(** X15: in the per-country table printed after the correction (its
    first 10 rows) and in the per-continent table printed after the
    mapping (its first 20 rows), on every engine: a printed row carries
    a value of the column (NULL included) with the number of rows that
    carry it, which is at least 1; no value is printed twice; the rows
    come by descending count; a value of the column that is not printed
    has a count no larger than any printed one, and then the table is
    full; the printed counts add up to at most the number of rows of the
    table, and to exactly that number when the column has no more values
    than the table shows. *)
Theorem X15_printed_counts (E : Engine) (t : list CleanRecord) (u : list VisaRecord) :
  Lawful E ->
  ((forall k c, In (k, c) (country_counts E t) ->
      1 <= c
      /\ c = Z.of_nat (List.length
               (List.filter (fun r => bool_decide (clean_country r = k)) t)))
   /\ NoDup (List.map fst (country_counts E t))
   /\ StronglySorted by_count_desc (country_counts E t)
   /\ (List.length (country_counts E t) <= 10)%nat
   /\ (forall r, In r t ->
         let c := Z.of_nat
                    (List.length
                       (List.filter
                          (fun r0 => bool_decide (clean_country r0 = clean_country r)) t)) in
         In (clean_country r, c) (country_counts E t)
         \/ (List.length (country_counts E t) = 10%nat
             /\ forall row, In row (country_counts E t) -> c <= snd row))
   /\ sumZ (List.map snd (country_counts E t)) <= Z.of_nat (List.length t)
   /\ ((List.length (SQL.distinct (List.map clean_country t)) <= 10)%nat ->
       sumZ (List.map snd (country_counts E t)) = Z.of_nat (List.length t)))
  /\ ((forall k c, In (k, c) (continent_counts E u) ->
         1 <= c
         /\ c = Z.of_nat (List.length
                  (List.filter (fun r => bool_decide (continent r = k)) u)))
      /\ NoDup (List.map fst (continent_counts E u))
      /\ StronglySorted by_count_desc (continent_counts E u)
      /\ (List.length (continent_counts E u) <= 20)%nat
      /\ (forall r, In r u ->
            let c := Z.of_nat
                       (List.length
                          (List.filter
                             (fun r0 => bool_decide (continent r0 = continent r)) u)) in
            In (continent r, c) (continent_counts E u)
            \/ (List.length (continent_counts E u) = 20%nat
                /\ forall row, In row (continent_counts E u) -> c <= snd row))
      /\ sumZ (List.map snd (continent_counts E u)) <= Z.of_nat (List.length u)
      /\ ((List.length (SQL.distinct (List.map continent u)) <= 20)%nat ->
          sumZ (List.map snd (continent_counts E u)) = Z.of_nat (List.length u))).
Proof.
  intros HE. split.
  - apply (counts_facts E HE clean_country 10 t).
  - apply (counts_facts E HE continent 20 u).
Qed.

Lemma X15_printed_counts_witness :
  Lawful reference_engine
  /\ sumZ (List.map snd (continent_counts reference_engine sample_spellings_enriched))
     = 3.
Proof.
  split; [exact reference_engine_lawful|].
  destruct (X15_printed_counts reference_engine sample_clean_table
              sample_spellings_enriched reference_engine_lawful)
    as (_ & _ & _ & _ & _ & _ & _ & Hall).
  apply Hall. apply Nat.leb_le. reflexivity.
Defined.

(** ** From the corrected countries to the rows of Q3 *)

Lemma filter_map_Forall2 {A B C} (Rel : A -> B -> Prop)
    (p : A -> bool) (q : B -> bool) (f : A -> C) (g : B -> C) l l' :
  Forall2 Rel l l' ->
  (forall x y, Rel x y -> p x = q y /\ f x = g y) ->
  List.map g (List.filter q l') = List.map f (List.filter p l).
Proof.
  intros H Hrel. induction H as [|x y l l' Hxy _ IH]; [reflexivity|].
  cbn [List.filter]. destruct (Hrel x y Hxy) as (-> & Hfg).
  destruct (q y); cbn [List.map]; now rewrite ?Hfg, IH.
Qed.

Section CorrectedGroups.

Variable countries : list string.
Variable scorer : string -> string -> Z.
Variable extractOne_of_None : result (option (string * Z)).
Variable country_name_to_country_alpha2 : string -> result string.
Variable country_alpha2_to_continent_code : string -> result string.
Variable convert_continent_code_to_continent_name : string -> result string.
Variable alpha2_of_None : result string.

Let correct := correct_country_name_udf countries scorer extractOne_of_None.
Let enrichment :=
  enrich countries scorer extractOne_of_None country_name_to_country_alpha2
    country_alpha2_to_continent_code convert_continent_code_to_continent_name
    alpha2_of_None.

(** X16: Q3 over the enriched table groups by the corrected country: on
    every engine, when it returns, the sum of its row for a year and a
    country is the SUM of the issued counts of all the cleaned rows of
    that year whose country the corrector turns into that country,
    whatever their spelling before the correction; and every such
    country is neither sentinel. *)
Theorem X16_geographic_rows_by_corrected_country
    (E : Engine) (t : list CleanRecord) (t' : list VisaRecord)
    (rows : list GeoRow) (row : GeoRow) :
  Lawful E ->
  enrichment t = Ok t' ->
  df_geo E t' = Ok rows ->
  In row rows ->
  exists c,
    geo_country row = Some c /\ c <> "total" /\ c <> "others"
    /\ (exists r, In r t /\ clean_year r = geo_year row
                  /\ correct (clean_country r) = Ok (Some c))
    /\ SQL.sum (ansi_enabled E)
         (List.map clean_issued (rows_corrected_to correct (geo_year row) c t))
       = Ok (geo_visa_issued row).
Proof.
  intros HE Henrich Hgeo Hrow.
  pose proof (enrich_rows _ _ _ _ _ _ _ _ _ Henrich) as Hrows.
  apply (in_df_geo E t' rows row HE Hgeo) in Hrow as (Hk & Hsum).
  apply List.in_map_iff in Hk as (r' & Ek & Hr').
  apply List.filter_In in Hr' as (Hr' & Hw).
  apply where_geo_holds in Hw as (c & Ec & N1 & N2).
  injection Ek as Ey Ec'.
  exists c. split; [congruence|]. split; [exact N1|]. split; [exact N2|]. split.
  - clear Hsum Henrich Hgeo. induction Hrows as [|r0 r0' l l' Hrel _ IH]; [contradiction|].
    destruct Hr' as [->|Hin].
    + destruct Hrel as (Hy & _ & Hc & _). exists r0. split; [now left|].
      split; [congruence|]. fold correct in Hc. now rewrite Hc, Ec.
    + destruct (IH Hin) as (r & Hr & Hyr & Hcr). exists r. auto using in_cons.
  - rewrite <- Hsum, <- Ec', Ec, geo_group_rows by assumption.
    f_equal. unfold issued_of, rows_of_year_country, rows_corrected_to.
    symmetry. apply (filter_map_Forall2 _ _ _ _ _ _ _ Hrows).
    intros x y (Hy & Hi & Hc & _). fold correct in Hc. split; [|now rewrite Hi].
    rewrite Hy. f_equal.
    destruct (decide (country y = Some c)) as [Eq|N].
    + rewrite !bool_decide_eq_true_2; congruence.
    + rewrite !bool_decide_eq_false_2; congruence.
Qed.

End CorrectedGroups.

Lemma X16_geographic_rows_by_corrected_country_witness :
  Lawful reference_engine
  /\ exists c,
       Some "Japan" = Some c /\ c <> "total" /\ c <> "others"
       /\ (exists r, In r sample_spellings /\ clean_year r = Some 2017
                     /\ correct_country_name_udf sample_countries sample_scorer
                          (Raise TypeError) (clean_country r) = Ok (Some c))
       /\ SQL.sum (ansi_enabled reference_engine)
            (List.map clean_issued
               (rows_corrected_to
                  (correct_country_name_udf sample_countries sample_scorer
                     (Raise TypeError))
                  (Some 2017) c sample_spellings))
          = Ok (Some (NInt 12)).
Proof.
  split; [exact reference_engine_lawful|].
  apply (X16_geographic_rows_by_corrected_country sample_countries sample_scorer
           (Raise TypeError) sample_alpha2 sample_continent_code
           sample_continent_name (Raise KeyError)
           reference_engine sample_spellings sample_spellings_enriched
           [ {| geo_year := Some 2017; geo_country := Some "Japan";
                geo_visa_issued := Some (NInt 12) |} ]
           {| geo_year := Some 2017; geo_country := Some "Japan";
              geo_visa_issued := Some (NInt 12) |}).
  - exact reference_engine_lawful.
  - reflexivity.
  - reflexivity.
  - left. reflexivity.
Defined.

(** ** Running the queries in a session *)

Lemma spark_sql_run (E : Engine) (q : Query) (s : SparkSession) (t : list VisaRecord) :
  global_temp s !! "japan_visa" = Some t ->
  spark_sql E q s = let* r := run_on E q t in Ok (r, s).
Proof.
  intros H. unfold spark_sql, seq, read_view, lift. rewrite H. cbn [bind fst snd].
  reflexivity.
Qed.

Lemma spark_sql_missing (E : Engine) (q : Query) (s : SparkSession) :
  global_temp s !! "japan_visa" = None ->
  spark_sql E q s = Raise AnalysisException.
Proof.
  intros H. unfold spark_sql, seq, read_view. now rewrite H.
Qed.

(** The aggregation part of the script stops at the first query that
    raises. *)
Lemma aggregations_stop_at_Q1 (E : Engine) (df : list VisaRecord) (s0 : SparkSession) e :
  df_cont E df = Raise e -> aggregations E df s0 = Raise e.
Proof.
  intros H. unfold aggregations, seq at 1, createOrReplaceGlobalTempView.
  cbn [bind fst snd]. unfold seq at 1.
  rewrite (spark_sql_run E Q1 _ df) by apply lookup_insert_eq.
  cbn [run_on]. rewrite H. reflexivity.
Qed.
